(** * FixedIndexVector ([fiv.hpp]): a slot map with recyclable handles

    Shallow embedding of [fiv::ID] and [fiv::Vector<T>] and the proofs of
    the properties stated for them.

    Modelling conventions.
    - [std::size_t] is a 64-bit unsigned integer, represented in [Z]; every
      arithmetic operation the source performs on it is followed by [wrap].
    - A [std::vector<A>] is a [list A]; [size] is its length as a [Z].
      [operator[]] out of range, [back()] and [pop_back()] on an empty
      vector are undefined behaviour in C++ and yield [Undef] here.
    - Member functions are computations in a state monad over the [Vector]
      record whose outcome is a normal return ([Ok]), a thrown exception
      ([Throw], with its [what()] string: the [std::invalid_argument] of
      [get], the [std::length_error] of [reserve]) or undefined behaviour
      ([Undef]).
    - Allocation succeeds: [std::bad_alloc] is not modelled. *)

From Stdlib Require Import ZArith Lia.
From stdpp Require Import base list strings pretty.

Local Open Scope Z_scope.

(** ** [std::size_t] *)

Definition size_t_bits : Z := 64.
Definition SIZE_MAX : Z := 2 ^ size_t_bits - 1.
Definition wrap (z : Z) : Z := z mod 2 ^ size_t_bits.

(** [std::ptrdiff_t] has the width of [std::size_t]. *)
Definition PTRDIFF_MAX : Z := 2 ^ (size_t_bits - 1) - 1.

(** ** [std::vector] primitives *)

Section StdVector.
Context {A : Type}.

Definition size (l : list A) : Z := Z.of_nat (length l).

Definition empty (l : list A) : bool :=
  match l with [] => true | _ :: _ => false end.

(** [l[i]] read. *)
Definition at_ (l : list A) (i : Z) : option A :=
  if bool_decide (0 <= i) then l !! Z.to_nat i else None.

(** [l[i] = x]. *)
Definition upd (l : list A) (i : Z) (x : A) : option (list A) :=
  match at_ l i with
  | Some _ => Some (<[Z.to_nat i := x]> l)
  | None => None
  end.

(** [std::swap(l[i], l[j])]. *)
Definition std_swap (l : list A) (i j : Z) : option (list A) :=
  match at_ l i, at_ l j with
  | Some x, Some y => Some (<[Z.to_nat j := x]> (<[Z.to_nat i := y]> l))
  | _, _ => None
  end.

Definition back (l : list A) : option A := last l.

(** What is left of a vector once the cell at [p] was moved behind all
    later cells and popped: the other cells, in their order. *)
Definition erase_at (p : Z) (l : list A) : list A := delete (Z.to_nat p) l.

(** What is left of a vector once the cell at [p] was exchanged with the
    last cell and popped: the last cell takes position [p]. *)
Definition swap_erase_at (p : Z) (l : list A) : list A :=
  match last l with
  | Some z => take (length l - 1) (<[Z.to_nat p := z]> l)
  | None => l
  end.

Definition push_back (l : list A) (x : A) : list A := l ++ [x].

Definition pop_back (l : list A) : option (list A) :=
  match l with [] => None | _ :: _ => Some (removelast l) end.
End StdVector.

(** ** [struct ID] *)

Record ID : Type := MkID { value : Z }.

Global Instance ID_eq_dec : EqDecision ID.
Proof. solve_decision. Defined.

(** [ID::operator==]. *)
Definition ID_eqb (a b : ID) : bool := bool_decide (value a = value b).

(** [ID::operator!=]. *)
Definition ID_neqb (a b : ID) : bool :=
  negb (bool_decide (value a = value b)).

Definition ID_default : ID := MkID SIZE_MAX.
Definition isInvalid (a : ID) : bool := bool_decide (value a = SIZE_MAX).
Definition invalidate (a : ID) : ID := MkID SIZE_MAX.
Definition invalidID : ID := MkID SIZE_MAX.

(** [std::find(l.begin(), l.end(), x) - l.begin()]: the position of the
    first element equal to [x], or [size l] when there is none. *)
Fixpoint std_find (l : list ID) (x : ID) : Z :=
  match l with
  | [] => 0
  | y :: l' => if ID_eqb y x then 0 else 1 + std_find l' x
  end.

(** ** [std::vector::max_size] *)

(** How many elements a [std::vector] may be asked to hold is the
    implementation's.  The three tables of a [Vector<T>] that [reserve]
    touches have an element type each, hence a limit each:
    [m_Data.max_size()], [m_IDs.max_size()] and [m_RevIDs.max_size()]. *)
Class limits (T : Type) : Type := MkLimits {
  max_size_Data : Z;
  max_size_IDs : Z;
  max_size_RevIDs : Z
}.
Global Arguments MkLimits {T} _ _ _.

(** The limits of libstdc++: [PTRDIFF_MAX / sizeof(E)] for a vector of
    [E]; a [std::size_t] and an [ID] take 8 bytes. *)
Definition libstdcxx_limits {T} (sizeof_T : Z) : limits T :=
  MkLimits (PTRDIFF_MAX / sizeof_T) (PTRDIFF_MAX / 8) (PTRDIFF_MAX / 8).

(** The [what()] of the [std::length_error] that [std::vector::reserve]
    throws (libstdc++). *)
Definition length_error : string := "vector::reserve".

(** ** [class Vector<T>] *)

Section Vector.
Context {T : Type}.

Record Vector : Type := MkVector {
  m_KeepOrder : bool;
  m_Data : list T;
  m_IDs : list Z;
  m_RevIDs : list ID;
  m_FreeIDSlots : list ID
}.

Definition Vector_new (keepOrder : bool) : Vector :=
  MkVector keepOrder [] [] [] [].

Definition set_Data (d : list T) (s : Vector) : Vector :=
  MkVector (m_KeepOrder s) d (m_IDs s) (m_RevIDs s) (m_FreeIDSlots s).
Definition set_IDs (d : list Z) (s : Vector) : Vector :=
  MkVector (m_KeepOrder s) (m_Data s) d (m_RevIDs s) (m_FreeIDSlots s).
Definition set_RevIDs (d : list ID) (s : Vector) : Vector :=
  MkVector (m_KeepOrder s) (m_Data s) (m_IDs s) d (m_FreeIDSlots s).
Definition set_FreeIDSlots (d : list ID) (s : Vector) : Vector :=
  MkVector (m_KeepOrder s) (m_Data s) (m_IDs s) (m_RevIDs s) d.

(** *** The monad of member functions *)

Inductive outcome (R : Type) : Type :=
| Ok (r : R) (s : Vector)
| Throw (what : string) (s : Vector)
| Undef.
Global Arguments Ok {R} r s.
Global Arguments Throw {R} what s.
Global Arguments Undef {R}.

Definition M (R : Type) : Type := Vector -> outcome R.

Definition ret {R} (r : R) : M R := fun s => Ok r s.

Definition bind {R R'} (m : M R) (k : R -> M R') : M R' :=
  fun s =>
    match m s with
    | Ok r s' => k r s'
    | Throw w s' => Throw w s'
    | Undef => Undef
    end.

Definition this : M Vector := fun s => Ok s s.
Definition assign (f : Vector -> Vector) : M unit := fun s => Ok tt (f s).
Definition throw {R} (what : string) : M R := fun s => Throw what s.

(** A vector primitive that is undefined out of its domain. *)
Definition defined {R} (o : option R) : M R :=
  fun s => match o with Some r => Ok r s | None => Undef end.

(** [v.reserve(n)] on a [std::vector] member [v] whose [max_size()] is
    [max_size]: a request above it throws [std::length_error]; any other
    changes the capacity of [v] only, which the model does not hold. *)
Definition std_reserve (max_size n : Z) : M unit :=
  if bool_decide (n > max_size) then throw length_error else ret tt.
End Vector.

Global Arguments Vector : clear implicits.
Global Arguments outcome : clear implicits.
Global Arguments M : clear implicits.

Notation "'do' x <- m ; k" := (bind m (fun x => k))
  (at level 10, x name, m at level 100, k at level 200,
   format "'[v' 'do'  x  <-  m ; '/' k ']'").
Notation "m ;; k" := (bind m (fun _ => k))
  (at level 100, k at level 200, right associativity).

Section Operations.
Context {T : Type} `{!limits T}.
Local Abbreviation Vector := (Vector T).
Local Abbreviation M := (M T).

(** [size()], [idAt], [indexOf], [dataAt], [operator[]], [data()]. *)
Definition size_ (s : Vector) : Z := size (m_Data s).

Definition idAt (index : Z) : M ID :=
  do s <- this; defined (at_ (m_RevIDs s) index).

Definition indexOf (id : ID) : M Z :=
  do s <- this; defined (at_ (m_IDs s) (value id)).

Definition dataAt (index : Z) : M T :=
  do s <- this; defined (at_ (m_Data s) index).

Definition subscript (id : ID) : M T :=
  do s <- this;
  do p <- defined (at_ (m_IDs s) (value id));
  defined (at_ (m_Data s) p).

Definition data (s : Vector) : list T := m_Data s.

(** [validID]. *)
Definition validID (id : ID) (s : Vector) : bool :=
  bool_decide (value id >= 0)
  && bool_decide (value id < size (m_IDs s))
  && bool_decide (std_find (m_FreeIDSlots s) id = size (m_FreeIDSlots s)).

(** [reserve]: the amount for the slot table is a difference of two
    [std::size_t]. *)
Definition reserve (numElements : Z) : M unit :=
  std_reserve max_size_Data numElements;;
  do s <- this;
  std_reserve max_size_IDs (wrap (numElements - size (m_FreeIDSlots s)));;
  std_reserve max_size_RevIDs numElements.

(** [addID]. *)
Definition addID (location : ID) : M ID :=
  do s <- this;
  let idIndex := MkID (size (m_IDs s)) in
  if negb (empty (m_FreeIDSlots s)) then
    do idIndex <- defined (back (m_FreeIDSlots s));
    do free <- defined (pop_back (m_FreeIDSlots s));
    assign (set_FreeIDSlots free);;
    do s <- this;
    do ids <- defined (upd (m_IDs s) (value idIndex) (value location));
    assign (set_IDs ids);;
    ret idIndex
  else
    assign (set_IDs (push_back (m_IDs s) (value location)));;
    ret idIndex.

(** [swapDataLocation]: [idx1] and [idx2] are read before the slot
    table is exchanged, as in the source. *)
Definition swapDataLocation (el1 el2 : ID) : M unit :=
  do s <- this;
  do idx1 <- defined (at_ (m_IDs s) (value el1));
  do idx2 <- defined (at_ (m_IDs s) (value el2));
  do ids <- defined (std_swap (m_IDs s) (value el1) (value el2));
  assign (set_IDs ids);;
  do s <- this;
  do dat <- defined (std_swap (m_Data s) idx1 idx2);
  assign (set_Data dat);;
  do s <- this;
  do rev <- defined (std_swap (m_RevIDs s) idx1 idx2);
  assign (set_RevIDs rev).

(** [clear]. *)
Definition clear : M unit :=
  assign (set_Data []);;
  assign (set_IDs []);;
  assign (set_RevIDs []);;
  assign (set_FreeIDSlots []).

(** The [for] loop of [remove], from the value [i] of its counter.  The
    condition is re-evaluated before every iteration as in the source;
    [fuel] bounds the number of iterations (see [remove_loop_fuel]). *)
Fixpoint remove_loop (fuel : nat) (i : Z) : M unit :=
  do s <- this;
  if bool_decide (i < wrap (size (m_Data s) - 1)) then
    match fuel with
    | O => fun _ => Undef
    | S fuel' =>
        do a <- idAt i;
        do b <- idAt (wrap (i + 1));
        swapDataLocation a b;;
        remove_loop fuel' (wrap (i + 1))
    end
  else ret tt.

(** [remove]. *)
Definition remove (id : ID) : M unit :=
  do s <- this;
  do dataIndex <- defined (at_ (m_IDs s) (value id));
  do lastDataID <- defined (back (m_RevIDs s));
  (if m_KeepOrder s then
     do i <- indexOf id;
     remove_loop (length (m_Data s)) i
   else
     swapDataLocation id lastDataID);;
  do s <- this;
  assign (set_FreeIDSlots (push_back (m_FreeIDSlots s) id));;
  do s <- this;
  do dat <- defined (pop_back (m_Data s));
  assign (set_Data dat);;
  do s <- this;
  do rev <- defined (pop_back (m_RevIDs s));
  assign (set_RevIDs rev);;
  do s <- this;
  if empty (m_Data s) then clear else ret tt.

(** [emplace]: the element is constructed in place from the forwarded
    arguments; [element] stands for the value so constructed. *)
Definition emplace (element : T) : M ID :=
  do s <- this;
  assign (set_Data (push_back (m_Data s) element));;
  do s <- this;
  let id := MkID (wrap (size (m_Data s) - 1)) in
  do idIndex <- addID id;
  do s <- this;
  assign (set_RevIDs (push_back (m_RevIDs s) idIndex));;
  ret idIndex.

(** [push]. *)
Definition push (element : T) : M ID :=
  do s <- this;
  assign (set_Data (push_back (m_Data s) element));;
  do s <- this;
  let id := MkID (wrap (size (m_Data s) - 1)) in
  do idIndex <- addID id;
  do s <- this;
  assign (set_RevIDs (push_back (m_RevIDs s) idIndex));;
  ret idIndex.

(** [get]: the two failure reasons and the thrown message. *)
Definition reason_out_of_bounds : string := "ID out of bounds.".
Definition reason_deleted : string :=
  "The object with this id has been deleted.".

Definition invalid_argument (id : ID) (faliureReason : string) : string :=
  "ID: " +:+ pretty (value id) +:+ " is not a valid ID. " +:+ faliureReason.

Definition get (id : ID) : M T :=
  do s <- this;
  if validID id s then
    do p <- defined (at_ (m_IDs s) (value id));
    defined (at_ (m_Data s) p)
  else
    let faliureReason :=
      if bool_decide (value id < 0) || bool_decide (value id >= size (m_IDs s))
      then reason_out_of_bounds
      else reason_deleted in
    throw (invalid_argument id faliureReason).
End Operations.

(** * Vocabulary of the properties *)

(** The dense store and the reverse table that [remove] leaves, by mode. *)
Definition erased {A} (keepOrder : bool) (p : Z) (l : list A) : list A :=
  if keepOrder then erase_at p l else swap_erase_at p l.

Section Vocabulary.
Context {T : Type} `{!limits T}.
Implicit Types (s : Vector T) (h : ID).

(** The data-model invariants: the dense store and the reverse table
    have one length; the reverse table and the slot table are inverse of
    each other on live handles; a slot is free or live, never both; the
    free list has no duplicates and stays within the slot table; the
    slot table's length is below the sentinel. *)
Record Inv s : Prop := {
  inv_len : size (m_Data s) = size (m_RevIDs s);
  inv_rev : forall p h,
    at_ (m_RevIDs s) p = Some h ->
    at_ (m_IDs s) (value h) = Some p /\ h ∉ m_FreeIDSlots s;
  inv_ids : forall i p,
    at_ (m_IDs s) i = Some p ->
    MkID i ∈ m_FreeIDSlots s \/ at_ (m_RevIDs s) p = Some (MkID i);
  inv_free_nodup : NoDup (m_FreeIDSlots s);
  inv_free_range : forall h,
    h ∈ m_FreeIDSlots s -> 0 <= value h < size (m_IDs s);
  inv_bound : size (m_IDs s) <= SIZE_MAX
}.

(** The statements of [remove] that move the removed element to the last
    storage position: the loop of the order-preserving mode, or the
    exchange with the last element. *)
Definition remove_relocate (id lastDataID : ID) : M T unit :=
  do s <- this;
  if m_KeepOrder s then
    do i <- indexOf id;
    remove_loop (length (m_Data s)) i
  else
    swapDataLocation id lastDataID.

(** The statements of [remove] that follow: the handle goes to the free
    list, the last cells are popped, and an empty container is reset.
    [remove] is [remove_relocate] followed by [remove_finish], see
    [remove_unfold]. *)
Definition remove_finish (id : ID) : M T unit :=
  do s <- this;
  assign (set_FreeIDSlots (push_back (m_FreeIDSlots s) id));;
  do s <- this;
  do dat <- defined (pop_back (m_Data s));
  assign (set_Data dat);;
  do s <- this;
  do rev <- defined (pop_back (m_RevIDs s));
  assign (set_RevIDs rev);;
  do s <- this;
  if empty (m_Data s) then clear else ret tt.

(** The state that [remove_finish] leaves. *)
Definition finished (id : ID) (d : list T) (r : list ID) (s : Vector T)
  : Vector T :=
  match d with
  | [] => Vector_new (m_KeepOrder s)
  | _ :: _ =>
      MkVector (m_KeepOrder s) d (m_IDs s) r (m_FreeIDSlots s ++ [id])
  end.

(** [remove] as it would be without the reset: the statements of
    [remove] with the final [if (m_Data.empty()) clear();] left out.  It
    is what the reset is compared with. *)
Definition remove_without_reset (id : ID) : M T unit :=
  do s <- this;
  do dataIndex <- defined (at_ (m_IDs s) (value id));
  do lastDataID <- defined (back (m_RevIDs s));
  (if m_KeepOrder s then
     do i <- indexOf id;
     remove_loop (length (m_Data s)) i
   else
     swapDataLocation id lastDataID);;
  do s <- this;
  assign (set_FreeIDSlots (push_back (m_FreeIDSlots s) id));;
  do s <- this;
  do dat <- defined (pop_back (m_Data s));
  assign (set_Data dat);;
  do s <- this;
  do rev <- defined (pop_back (m_RevIDs s));
  assign (set_RevIDs rev).

(** What a client sees of an outcome: the returned value or the
    message of the exception. *)
Definition observe {R} (o : outcome T R) : option (R + string) :=
  match o with
  | Ok r _ => Some (inl r)
  | Throw m _ => Some (inr m)
  | Undef => None
  end.

(** The public operations that act on the container. *)
Inductive op : Type :=
| OpPush (v : T)
| OpEmplace (v : T)
| OpRemove (h : ID)
| OpClear
| OpReserve (numElements : Z)
| OpGet (h : ID).

(** The outcome of a history: the container it leaves together with the
    handles that [push] or [emplace] returned and that were not passed to
    [remove] nor dropped by [clear] since ([Done]); or a [remove] of a
    handle that is not among these ([Misuse]); or an operation that went
    undefined ([Stuck]). *)
Inductive history : Type :=
| Done (s : Vector T) (live : list ID)
| Misuse
| Stuck.

Fixpoint run (ops : list op) (s : Vector T) (live : list ID) : history :=
  match ops with
  | [] => Done s live
  | OpPush v :: ops' =>
      match push v s with
      | Ok h s' => run ops' s' (h :: live)
      | _ => Stuck
      end
  | OpEmplace v :: ops' =>
      match emplace v s with
      | Ok h s' => run ops' s' (h :: live)
      | _ => Stuck
      end
  | OpRemove h :: ops' =>
      if bool_decide (h ∈ live) then
        match remove h s with
        | Ok _ s' => run ops' s' (filter (fun h' => h' <> h) live)
        | _ => Stuck
        end
      else Misuse
  | OpClear :: ops' =>
      match clear s with
      | Ok _ s' => run ops' s' []
      | _ => Stuck
      end
  | OpReserve n :: ops' =>
      match reserve n s with
      | Ok _ s' | Throw _ s' => run ops' s' live
      | Undef => Stuck
      end
  | OpGet h :: ops' =>
      match get h s with
      | Ok _ s' | Throw _ s' => run ops' s' live
      | Undef => Stuck
      end
  end.

(** The ledger of a history agrees with [validID]. *)
Definition agrees (s : Vector T) (live : list ID) : Prop :=
  forall h, validID h s = true <-> h ∈ live.

(** The handles that are valid in a container, in increasing order. *)
Definition live_handles (s : Vector T) : list ID :=
  filter (fun h => validID h s = true) (MkID <$> seqZ 0 (size (m_IDs s))).

(** [Vector()]: the default constructor keeps the order. *)
Definition Vector_default : Vector T := Vector_new true.

(** The cells of the dense store, each with the handle that owns it: what
    an iteration from [begin()] to [end()] visits, with [idAt]. *)
Definition entries (s : Vector T) : list (ID * T) :=
  zip (m_RevIDs s) (m_Data s).

(** A history run together with the cells an iteration is expected to
    visit afterwards: an insertion adds its cell behind the others, a
    removal takes the cell of its handle out, [clear] drops them all.
    [None] when a [remove] is applied to a handle that owns no cell or
    when an operation does not return. *)
Fixpoint visit (ops : list op) (s : Vector T) (es : list (ID * T))
  : option (Vector T * list (ID * T)) :=
  match ops with
  | [] => Some (s, es)
  | OpPush v :: ops' =>
      match push v s with
      | Ok h s' => visit ops' s' (es ++ [(h, v)])
      | _ => None
      end
  | OpEmplace v :: ops' =>
      match emplace v s with
      | Ok h s' => visit ops' s' (es ++ [(h, v)])
      | _ => None
      end
  | OpRemove h :: ops' =>
      if bool_decide (h ∈ es.*1) then
        match remove h s with
        | Ok _ s' => visit ops' s' (filter (fun e => e.1 <> h) es)
        | _ => None
        end
      else None
  | OpClear :: ops' =>
      match clear s with
      | Ok _ s' => visit ops' s' []
      | _ => None
      end
  | OpReserve n :: ops' =>
      match reserve n s with
      | Ok _ s' | Throw _ s' => visit ops' s' es
      | Undef => None
      end
  | OpGet h :: ops' =>
      match get h s with
      | Ok _ s' | Throw _ s' => visit ops' s' es
      | Undef => None
      end
  end.

(** The cells of a container and the expected ones: equal up to their
    order, and equal when the container keeps the order. *)
Definition visited (s : Vector T) (es : list (ID * T)) : Prop :=
  entries s ≡ₚ es /\ (m_KeepOrder s = true -> entries s = es).


(** Two removals and two insertions in a row. *)
Definition remove2_push2 (h1 h2 : ID) (v1 v2 : T) : M T (ID * ID) :=
  remove h1;;
  remove h2;;
  do a <- push v1;
  do b <- emplace v2;
  ret (a, b).
End Vocabulary.

(** The last clause of the reset-on-empty property: what operations after
    a [remove] that empties the container return does not depend on the
    reset. *)
Definition reset_unobservable : Prop :=
  forall (s sr sn : Vector string) (h : ID) (after : M string (ID * bool)),
    Inv s -> validID h s = true ->
    remove h s = Ok tt sr -> m_Data sr = [] ->
    remove_without_reset h s = Ok tt sn ->
    observe (after sr) = observe (after sn).

(** ** Sample histories, containers and client programs *)

(** The samples hold [std::string]s, 32 bytes each in libstdc++. *)
Global Instance string_limits : limits string := libstdcxx_limits 32.


(** A history with recycling, a failed checked access and a reset in it. *)
Definition sample_history : list (@op string) :=
  [OpPush "A"; OpPush "B"; OpEmplace "C"; OpRemove (MkID 1); OpGet (MkID 1);
   OpPush "D"; OpRemove (MkID 0); OpReserve 8; OpRemove (MkID 2);
   OpRemove (MkID 1); OpPush "E"; OpPush "F"]%string.

(** Four elements in an order-preserving container. *)
Definition abcd_history : list (@op string) :=
  [OpPush "A"; OpPush "B"; OpPush "C"; OpPush "D"]%string.

Definition abcd : Vector string :=
  MkVector true ["A"; "B"; "C"; "D"]%string [0; 1; 2; 3]
    [MkID 0; MkID 1; MkID 2; MkID 3] [].

(** The same after its second element was removed. *)
Definition acd : Vector string :=
  MkVector true ["A"; "C"; "D"]%string [0; 3; 1; 2]
    [MkID 0; MkID 2; MkID 3] [MkID 1].

(** Three elements in a swap-remove container. *)
Definition abc_history : list (@op string) :=
  [OpPush "A"; OpPush "B"; OpPush "C"]%string.

Definition abc_swap : Vector string :=
  MkVector false ["A"; "B"; "C"]%string [0; 1; 2]
    [MkID 0; MkID 1; MkID 2] [].



(** The order-preserving scenario, as a client would write it. *)
Definition order_preserving_scenario
  : M string (string * string * string * (string * string * string)
              * bool * Z) :=
  (do h0 <- push "A";
   do h1 <- push "B";
   do h2 <- push "C";
   do h3 <- push "D";
   remove h1;;
   do d0 <- dataAt 0;
   do d1 <- dataAt 1;
   do d2 <- dataAt 2;
   do g0 <- get h0;
   do g2 <- get h2;
   do g3 <- get h3;
   do s <- this;
   ret (d0, d1, d2, (g0, g2, g3), validID h1 s, size_ s))%string.

(** The swap-remove scenario, as a client would write it. *)
Definition swap_remove_scenario
  : M string (bool * bool * bool * (string * string) * Z) :=
  (do h0 <- push "A";
   do h1 <- push "B";
   do h2 <- push "C";
   remove h0;;
   do g1 <- get h1;
   do g2 <- get h2;
   do s <- this;
   ret (validID h0 s, validID h1 s, validID h2 s, (g1, g2), size_ s))%string.



(** * Lists indexed by [Z] *)

Section StdVectorFacts.
Context {A : Type}.
Implicit Types (l : list A) (i j k : Z) (x y : A).

Lemma size_nonneg l : 0 <= size l.
Proof. unfold size. lia. Qed.

Lemma size_nil : size (@nil A) = 0.
Proof. reflexivity. Qed.

Lemma size_app l1 l2 : size (l1 ++ l2) = size l1 + size l2.
Proof. unfold size. rewrite length_app. lia. Qed.

Lemma size_cons x l : size (x :: l) = 1 + size l.
Proof. unfold size. simpl. lia. Qed.

Lemma size_insert l (n : nat) x : size (<[n := x]> l) = size l.
Proof. unfold size. by rewrite length_insert. Qed.

Lemma at_Some_range l i x : at_ l i = Some x -> 0 <= i < size l.
Proof.
  unfold at_, size. case_bool_decide as Hi; [|done].
  intros Hx%lookup_lt_Some. lia.
Qed.

Lemma at_in_range l i : 0 <= i < size l -> exists x, at_ l i = Some x.
Proof.
  unfold at_, size. intros [H0 H1]. rewrite bool_decide_eq_true_2 by done.
  destruct (lookup_lt_is_Some_2 l (Z.to_nat i)) as [x Hx]; [lia|eauto].
Qed.

Lemma at_None l i : at_ l i = None <-> ~ (0 <= i < size l).
Proof.
  split.
  - intros HN Hr. destruct (at_in_range l i Hr). congruence.
  - intros Hr. destruct (at_ l i) eqn:E; [|done].
    apply at_Some_range in E. done.
Qed.

Lemma at_nil i : at_ (@nil A) i = None.
Proof. unfold at_. by case_bool_decide. Qed.

Lemma at_of_nat l (n : nat) : at_ l (Z.of_nat n) = l !! n.
Proof.
  unfold at_. rewrite bool_decide_eq_true_2 by lia. by rewrite Nat2Z.id.
Qed.

Lemma at_app_l l1 l2 i : i < size l1 -> at_ (l1 ++ l2) i = at_ l1 i.
Proof.
  unfold at_, size. intros. case_bool_decide; [|done].
  apply lookup_app_l. lia.
Qed.

Lemma at_app_r l1 l2 i :
  size l1 <= i -> at_ (l1 ++ l2) i = at_ l2 (i - size l1).
Proof.
  unfold at_, size. intros.
  rewrite !bool_decide_eq_true_2 by lia.
  rewrite lookup_app_r by lia. f_equal. lia.
Qed.

Lemma at_middle l1 x l2 : at_ (l1 ++ x :: l2) (size l1) = Some x.
Proof.
  rewrite at_app_r by lia. by rewrite Z.sub_diag.
Qed.

Lemma at_snoc l x : at_ (l ++ [x]) (size l) = Some x.
Proof. apply at_middle. Qed.

Lemma at_snoc_Some l x p y :
  at_ (l ++ [x]) p = Some y <-> at_ l p = Some y \/ (p = size l /\ y = x).
Proof.
  destruct (decide (p < size l)) as [Hlt|Hge].
  - rewrite at_app_l by done. split; [eauto|]. intros [?|[? _]]; [done|lia].
  - rewrite at_app_r by lia. split.
    + intros Hp. right. pose proof (at_Some_range _ _ _ Hp) as Hr.
      change (size [x]) with 1 in Hr.
      assert (p = size l) as -> by lia.
      rewrite Z.sub_diag in Hp. by inversion Hp.
    + intros [Hp|[-> ->]].
      * apply at_Some_range in Hp. lia.
      * by rewrite Z.sub_diag.
Qed.

Lemma at_insert l i j x :
  0 <= i < size l ->
  at_ (<[Z.to_nat i := x]> l) j = if decide (j = i) then Some x else at_ l j.
Proof.
  unfold at_, size. intros Hi. case_decide as E.
  - subst. rewrite bool_decide_eq_true_2 by lia.
    apply list_lookup_insert_eq. lia.
  - case_bool_decide; [|done].
    apply list_lookup_insert_ne. lia.
Qed.

Lemma upd_Some l i x l' :
  upd l i x = Some l' ->
  0 <= i < size l /\ l' = <[Z.to_nat i := x]> l.
Proof.
  unfold upd. destruct (at_ l i) eqn:E; [|done].
  intros [= <-]. eauto using at_Some_range.
Qed.

Lemma upd_in_range l i x :
  0 <= i < size l -> upd l i x = Some (<[Z.to_nat i := x]> l).
Proof.
  intros [y Hy]%at_in_range. unfold upd. by rewrite Hy.
Qed.

Lemma std_swap_Some l i j x y :
  at_ l i = Some x -> at_ l j = Some y ->
  std_swap l i j = Some (<[Z.to_nat j := x]> (<[Z.to_nat i := y]> l)).
Proof. unfold std_swap. by intros -> ->. Qed.

(** Reading a vector after two of its cells were exchanged. *)
Lemma at_swapped l i j k x y :
  at_ l i = Some x -> at_ l j = Some y ->
  at_ (<[Z.to_nat j := x]> (<[Z.to_nat i := y]> l)) k =
    if decide (k = j) then Some x
    else if decide (k = i) then Some y
    else at_ l k.
Proof.
  intros Hi Hj.
  pose proof (at_Some_range _ _ _ Hi). pose proof (at_Some_range _ _ _ Hj).
  rewrite at_insert by (rewrite size_insert; lia).
  case_decide; [done|].
  by rewrite at_insert by lia.
Qed.

Lemma back_snoc l x : back (l ++ [x]) = Some x.
Proof. apply last_snoc. Qed.

Lemma back_Some l x : back l = Some x -> exists l', l = l' ++ [x].
Proof. unfold back. intros H%last_Some. done. Qed.

Lemma back_at l x :
  back l = Some x -> at_ l (size l - 1) = Some x.
Proof.
  intros [l' ->]%back_Some. rewrite size_app. simpl.
  replace (size l' + size [x] - 1) with (size l') by (unfold size; simpl; lia).
  apply at_snoc.
Qed.

Lemma pop_back_snoc l x : pop_back (l ++ [x]) = Some l.
Proof.
  unfold pop_back. destruct (l ++ [x]) eqn:E.
  - by destruct l.
  - rewrite <- E. by rewrite removelast_last.
Qed.

Lemma empty_true l : empty l = true <-> l = [].
Proof. by destruct l. Qed.

Lemma elem_of_snoc l x y : y ∈ l ++ [x] <-> y ∈ l \/ y = x.
Proof. by rewrite elem_of_app, list_elem_of_singleton. Qed.

Lemma at_elem_of l i x : at_ l i = Some x -> x ∈ l.
Proof.
  unfold at_. case_bool_decide; [|done]. apply list_elem_of_lookup_2.
Qed.

Lemma elem_of_at l x : x ∈ l -> exists i, at_ l i = Some x.
Proof.
  intros [n Hn]%list_elem_of_lookup_1. exists (Z.of_nat n).
  by rewrite at_of_nat.
Qed.
End StdVectorFacts.

(** * Handles *)

Lemma ID_eqb_eq a b : ID_eqb a b = true <-> a = b.
Proof.
  unfold ID_eqb. rewrite bool_decide_eq_true.
  destruct a, b; simpl. split; congruence.
Qed.

Lemma MkID_value h : MkID (value h) = h.
Proof. by destruct h. Qed.

Global Instance MkID_inj : Inj (=) (=) MkID.
Proof. intros x y. congruence. Qed.

Lemma std_find_bounds l x : 0 <= std_find l x <= size l.
Proof.
  induction l as [|y l IH]; simpl.
  - unfold size; simpl; lia.
  - rewrite size_cons. destruct (ID_eqb y x); lia.
Qed.

(** [std::find] returns the end iterator exactly when no element matches. *)
Lemma std_find_end l x : std_find l x = size l <-> x ∉ l.
Proof.
  induction l as [|y l IH]; simpl.
  - split; [intros _; apply not_elem_of_nil|done].
  - rewrite size_cons, not_elem_of_cons.
    pose proof (std_find_bounds l x). pose proof (size_nonneg l).
    destruct (ID_eqb y x) eqn:E.
    + apply ID_eqb_eq in E. subst. split; [lia|]. intros [? _]. done.
    + assert (x <> y).
      { intros ->. assert (ID_eqb y y = true) by by apply ID_eqb_eq.
        congruence. }
      rewrite <- IH. split; [intros; split; [done|lia]|intros [_ ?]; lia].
  Qed.

(** * The representation invariant *)

Section Invariant.
Context {T : Type}.
Implicit Types (s : Vector T) (h : ID) (p i : Z).

Lemma validID_spec h s :
  validID h s = true <->
  0 <= value h < size (m_IDs s) /\ h ∉ m_FreeIDSlots s.
Proof.
  unfold validID. rewrite !andb_true_iff, !bool_decide_eq_true.
  rewrite std_find_end. intuition lia.
Qed.

Lemma validID_false h s :
  validID h s = false <->
  ~ (0 <= value h < size (m_IDs s)) \/ h ∈ m_FreeIDSlots s.
Proof.
  rewrite <- not_true_iff_false, validID_spec.
  destruct (decide (h ∈ m_FreeIDSlots s)); intuition.
Qed.

Lemma validID_new h k : validID h (@Vector_new T k) = false.
Proof.
  apply validID_false. left. simpl. change (size (@nil Z)) with 0. lia.
Qed.

Lemma Inv_new k : Inv (@Vector_new T k).
Proof.
  split; simpl.
  - done.
  - intros p h. by rewrite at_nil.
  - intros i p. by rewrite at_nil.
  - constructor.
  - intros h Hh. by apply elem_of_nil in Hh.
  - unfold size, SIZE_MAX, size_t_bits. simpl. lia.
Qed.

(** A handle is live when the reverse table holds it. *)
Lemma Inv_valid_live s h :
  Inv s -> validID h s = true ->
  exists p, at_ (m_IDs s) (value h) = Some p /\ at_ (m_RevIDs s) p = Some h.
Proof.
  intros HI [Hr Hf]%validID_spec.
  destruct (at_in_range _ _ Hr) as [p Hp]. exists p. split; [done|].
  destruct (inv_ids _ HI _ _ Hp) as [Hfree|Hrev].
  - by rewrite MkID_value in Hfree.
  - by rewrite MkID_value in Hrev.
Qed.

Lemma Inv_live_valid s h p :
  Inv s -> at_ (m_RevIDs s) p = Some h -> validID h s = true.
Proof.
  intros HI Hp. destruct (inv_rev _ HI _ _ Hp) as [Hi Hf].
  apply validID_spec. eauto using at_Some_range.
Qed.

Lemma Inv_valid_elem_of s h :
  Inv s -> validID h s = true <-> h ∈ m_RevIDs s.
Proof.
  intros HI. split.
  - intros (p & _ & Hp)%Inv_valid_live; [|done]. eauto using at_elem_of.
  - intros [p Hp]%elem_of_at. eauto using Inv_live_valid.
Qed.

Lemma Inv_rev_inj s p q h :
  Inv s -> at_ (m_RevIDs s) p = Some h -> at_ (m_RevIDs s) q = Some h ->
  p = q.
Proof.
  intros HI Hp Hq.
  destruct (inv_rev _ HI _ _ Hp) as [Hp' _].
  destruct (inv_rev _ HI _ _ Hq) as [Hq' _]. congruence.
Qed.

Lemma Inv_rev_NoDup s : Inv s -> NoDup (m_RevIDs s).
Proof.
  intros HI. apply NoDup_alt. intros n m h Hn Hm.
  rewrite <- at_of_nat in Hn, Hm.
  pose proof (Inv_rev_inj _ _ _ _ HI Hn Hm). lia.
Qed.

(** Every slot is either live or free: the slot table is as long as the
    reverse table and the free list together. *)
Lemma Inv_count s :
  Inv s -> size (m_IDs s) = size (m_RevIDs s) + size (m_FreeIDSlots s).
Proof.
  intros HI.
  assert (MkID <$> seqZ 0 (size (m_IDs s))
          ≡ₚ m_RevIDs s ++ m_FreeIDSlots s) as HP.
  { apply NoDup_Permutation.
    - apply NoDup_fmap_2; [apply _|apply NoDup_seqZ].
    - apply NoDup_app. split_and!.
      + by apply Inv_rev_NoDup.
      + intros h [p Hp]%elem_of_at. by destruct (inv_rev _ HI _ _ Hp).
      + by apply inv_free_nodup.
    - intros h. rewrite list_elem_of_fmap, elem_of_app. split.
      + intros (i & -> & Hi%elem_of_seqZ).
        destruct (at_in_range (m_IDs s) i) as [p Hp]; [lia|].
        destruct (inv_ids _ HI _ _ Hp); eauto using at_elem_of.
      + intros Hh. exists (value h). rewrite MkID_value. split; [done|].
        apply elem_of_seqZ. destruct Hh as [[p Hp]%elem_of_at|Hh].
        * destruct (inv_rev _ HI _ _ Hp) as [Hi%at_Some_range _]. lia.
        * apply (inv_free_range _ HI) in Hh. lia. }
  apply Permutation_length in HP.
  rewrite length_fmap, length_seqZ, length_app in HP.
  unfold size in *. lia.
Qed.

(** The sentinel is never a valid handle. *)
Lemma invalidID_not_valid s : Inv s -> validID invalidID s = false.
Proof.
  intros HI. apply validID_false. left. simpl.
  pose proof (inv_bound _ HI). lia.
Qed.

Lemma Inv_data_bound s : Inv s -> size (m_Data s) <= SIZE_MAX.
Proof.
  intros HI. pose proof (Inv_count _ HI). pose proof (inv_bound _ HI).
  pose proof (inv_len _ HI). pose proof (size_nonneg (m_FreeIDSlots s)).
  lia.
Qed.
End Invariant.

(** * The operations, step by step *)

Section OperationFacts.
Context {T : Type}.
Implicit Types (s : Vector T) (h a b : ID) (p i j : Z) (v x y : T).

Lemma bind_Ok {R R'} (m : M T R) (k : R -> M T R') s r s' :
  m s = Ok r s' -> bind m k s = k r s'.
Proof. unfold bind. by intros ->. Qed.

Lemma idAt_run s i h : at_ (m_RevIDs s) i = Some h -> idAt i s = Ok h s.
Proof. unfold idAt, bind, this, defined. by intros ->. Qed.

Lemma indexOf_run s h i :
  at_ (m_IDs s) (value h) = Some i -> indexOf h s = Ok i s.
Proof. unfold indexOf, bind, this, defined. by intros ->. Qed.

Lemma emplace_push v s : emplace v s = push v s.
Proof. reflexivity. Qed.

(** [push] when the free list is empty: a fresh slot is appended. *)
Lemma push_fresh s v :
  m_FreeIDSlots s = [] ->
  push v s =
    Ok (MkID (size (m_IDs s)))
       (MkVector (m_KeepOrder s)
          (m_Data s ++ [v])
          (m_IDs s ++ [wrap (size (m_Data s ++ [v]) - 1)])
          (m_RevIDs s ++ [MkID (size (m_IDs s))])
          []).
Proof.
  intros Hf. unfold push, addID, bind, this, assign, ret; simpl.
  rewrite Hf. simpl. unfold set_IDs, set_RevIDs, push_back; simpl.
  by rewrite Hf.
Qed.

(** [push] when the free list is not empty: its last entry is reused. *)
Lemma push_recycle s v fl h :
  m_FreeIDSlots s = fl ++ [h] ->
  0 <= value h < size (m_IDs s) ->
  push v s =
    Ok h
       (MkVector (m_KeepOrder s)
          (m_Data s ++ [v])
          (<[Z.to_nat (value h) := wrap (size (m_Data s ++ [v]) - 1)]>
             (m_IDs s))
          (m_RevIDs s ++ [h])
          fl).
Proof.
  intros Hf Hr. unfold push, addID, bind, this, assign, ret, defined; simpl.
  rewrite Hf.
  replace (empty (fl ++ [h])) with false by by destruct fl.
  simpl. rewrite back_snoc, pop_back_snoc. simpl.
  rewrite upd_in_range by done. reflexivity.
Qed.

(** [push] on a free list whose last entry is outside the slot table
    writes out of bounds. *)
Lemma push_recycle_out_of_range s v fl h :
  m_FreeIDSlots s = fl ++ [h] ->
  ~ (0 <= value h < size (m_IDs s)) ->
  push v s = Undef.
Proof.
  intros Hf Hr. unfold push, addID, bind, this, assign, ret, defined; simpl.
  rewrite Hf.
  replace (empty (fl ++ [h])) with false by by destruct fl.
  simpl. rewrite back_snoc, pop_back_snoc. simpl.
  unfold upd. apply at_None in Hr. by rewrite Hr.
Qed.

Lemma wrap_small z : 0 <= z <= SIZE_MAX -> wrap z = z.
Proof.
  unfold wrap, SIZE_MAX. intros. apply Z.mod_small. lia.
Qed.

Lemma wrap_data_last s v :
  Inv s -> wrap (size (m_Data s ++ [v]) - 1) = size (m_Data s).
Proof.
  intros HI. rewrite size_app. unfold size at 2. simpl.
  pose proof (Inv_data_bound _ HI). pose proof (size_nonneg (m_Data s)).
  rewrite wrap_small; lia.
Qed.

(** [swapDataLocation] on two handles whose slots and cells exist. *)
Lemma swapDataLocation_run s a b i j x y ra rb :
  at_ (m_IDs s) (value a) = Some i ->
  at_ (m_IDs s) (value b) = Some j ->
  at_ (m_Data s) i = Some x -> at_ (m_Data s) j = Some y ->
  at_ (m_RevIDs s) i = Some ra -> at_ (m_RevIDs s) j = Some rb ->
  swapDataLocation a b s =
    Ok tt
       (MkVector (m_KeepOrder s)
          (<[Z.to_nat j := x]> (<[Z.to_nat i := y]> (m_Data s)))
          (<[Z.to_nat (value b) := i]> (<[Z.to_nat (value a) := j]> (m_IDs s)))
          (<[Z.to_nat j := ra]> (<[Z.to_nat i := rb]> (m_RevIDs s)))
          (m_FreeIDSlots s)).
Proof.
  intros Ha Hb Hx Hy Hra Hrb.
  unfold swapDataLocation, bind, this, assign, ret, defined; simpl.
  rewrite Ha, Hb. simpl.
  rewrite (std_swap_Some _ _ _ _ _ Ha Hb). simpl.
  rewrite (std_swap_Some _ _ _ _ _ Hx Hy). simpl.
  rewrite (std_swap_Some _ _ _ _ _ Hra Hrb). reflexivity.
Qed.
End OperationFacts.

(** * Preservation of the invariant *)

Section Preservation.
Context {T : Type}.
Implicit Types (s : Vector T) (h a b : ID) (p i j : Z) (v x y : T).

Lemma Inv_push_fresh s v :
  Inv s -> m_FreeIDSlots s = [] -> size (m_IDs s) < SIZE_MAX ->
  Inv (MkVector (m_KeepOrder s)
         (m_Data s ++ [v])
         (m_IDs s ++ [size (m_Data s)])
         (m_RevIDs s ++ [MkID (size (m_IDs s))])
         []).
Proof.
  intros HI Hf Hroom. pose proof (inv_len _ HI) as Hlen.
  split; simpl.
  - rewrite !size_app. unfold size at 2 4. simpl. lia.
  - intros p h [Hp|[-> ->]]%at_snoc_Some.
    + destruct (inv_rev _ HI _ _ Hp) as [Hi _].
      split; [|apply not_elem_of_nil].
      rewrite at_app_l; [done|]. apply at_Some_range in Hi. lia.
    + split; [|apply not_elem_of_nil]. simpl.
      rewrite <- Hlen. apply at_snoc.
  - intros i p [Hi|[-> ->]]%at_snoc_Some; right.
    + destruct (inv_ids _ HI _ _ Hi) as [Hfree|Hrev].
      * rewrite Hf in Hfree. by apply elem_of_nil in Hfree.
      * rewrite at_app_l; [done|]. apply at_Some_range in Hrev. lia.
    + rewrite Hlen. apply at_snoc.
  - constructor.
  - intros h Hh. by apply elem_of_nil in Hh.
  - rewrite size_app. unfold size at 2. simpl. lia.
Qed.

Lemma Inv_push_recycle s v fl h :
  Inv s -> m_FreeIDSlots s = fl ++ [h] ->
  Inv (MkVector (m_KeepOrder s)
         (m_Data s ++ [v])
         (<[Z.to_nat (value h) := size (m_Data s)]> (m_IDs s))
         (m_RevIDs s ++ [h])
         fl).
Proof.
  intros HI Hf. pose proof (inv_len _ HI) as Hlen.
  pose proof (inv_free_nodup _ HI) as Hnd. rewrite Hf in Hnd.
  apply NoDup_app in Hnd as (Hndfl & Hdisj & _).
  assert (0 <= value h < size (m_IDs s)) as Hr.
  { apply (inv_free_range _ HI). rewrite Hf. apply elem_of_snoc. by right. }
  assert (h ∉ fl) as Hhfl.
  { intros Hin. apply (Hdisj _ Hin). by apply list_elem_of_singleton. }
  split; simpl.
  - rewrite !size_app. unfold size at 2 4. simpl. lia.
  - intros p h' [Hp|[-> ->]]%at_snoc_Some.
    + destruct (inv_rev _ HI _ _ Hp) as [Hi Hnf]. rewrite Hf in Hnf.
      split; [|by intros ?; apply Hnf, elem_of_snoc; left].
      rewrite at_insert by done. case_decide as E; [|done].
      exfalso. apply Hnf, elem_of_snoc. right.
      destruct h, h'; simpl in *; congruence.
    + split; [|done]. rewrite at_insert by done.
      rewrite decide_True by done. by rewrite Hlen.
  - intros i p. rewrite at_insert by done. case_decide as E.
    + intros [= <-]. right. subst i. rewrite MkID_value, Hlen.
      apply at_snoc.
    + intros Hi. destruct (inv_ids _ HI _ _ Hi) as [Hfree|Hrev].
      * left. rewrite Hf in Hfree.
        apply elem_of_app in Hfree as [?|Hh]; [done|].
        apply list_elem_of_singleton in Hh. subst h. done.
      * right. rewrite at_app_l; [done|]. apply at_Some_range in Hrev. lia.
  - done.
  - intros h' Hh'. rewrite size_insert.
    apply (inv_free_range _ HI). rewrite Hf. apply elem_of_snoc. by left.
  - rewrite size_insert. apply (inv_bound _ HI).
Qed.

Lemma ID_value_inj a b : value a = value b -> a = b.
Proof. destruct a, b; simpl; congruence. Qed.

(** Exchanging the storage positions of two live handles. *)
Lemma Inv_swap s a b i j x y :
  Inv s ->
  at_ (m_RevIDs s) i = Some a -> at_ (m_RevIDs s) j = Some b ->
  Inv (MkVector (m_KeepOrder s)
         (<[Z.to_nat j := x]> (<[Z.to_nat i := y]> (m_Data s)))
         (<[Z.to_nat (value b) := i]> (<[Z.to_nat (value a) := j]> (m_IDs s)))
         (<[Z.to_nat j := a]> (<[Z.to_nat i := b]> (m_RevIDs s)))
         (m_FreeIDSlots s)).
Proof.
  intros HI Ha Hb.
  destruct (inv_rev _ HI _ _ Ha) as [Hia Hfa].
  destruct (inv_rev _ HI _ _ Hb) as [Hib Hfb].
  assert (forall h p, at_ (m_RevIDs s) p = Some h -> value h = value a -> p = i)
    as Hua.
  { intros h p Hp ->%ID_value_inj. eapply Inv_rev_inj; eauto. }
  assert (forall h p, at_ (m_RevIDs s) p = Some h -> value h = value b -> p = j)
    as Hub.
  { intros h p Hp ->%ID_value_inj. eapply Inv_rev_inj; eauto. }
  split; simpl.
  - rewrite !size_insert. apply (inv_len _ HI).
  - intros p h. rewrite (at_swapped _ _ _ _ _ _ Ha Hb).
    rewrite (at_swapped _ _ _ _ _ _ Hia Hib).
    repeat case_decide; intros Hp; simplify_eq; try done.
    + split; [|done]. f_equal. eauto.
    + exfalso. eauto.
    + exfalso. eauto.
    + by apply (inv_rev _ HI).
  - intros k p. rewrite (at_swapped _ _ _ _ _ _ Hia Hib).
    rewrite (at_swapped _ _ _ _ _ _ Ha Hb).
    repeat case_decide; intros Hk; simplify_eq; try rewrite MkID_value;
      try (by right).
    + destruct (inv_ids _ HI _ _ Hk) as [?|Hr]; [by left|].
      exfalso. assert (MkID k = b) as <- by congruence. done.
    + destruct (inv_ids _ HI _ _ Hk) as [?|Hr]; [by left|].
      exfalso. assert (MkID k = a) as <- by congruence. done.
    + by apply (inv_ids _ HI).
  - apply (inv_free_nodup _ HI).
  - intros h Hh. rewrite !size_insert. by apply (inv_free_range _ HI).
  - rewrite !size_insert. apply (inv_bound _ HI).
Qed.
End Preservation.

(** * Removal *)

Section ListMoves.
Context {A : Type}.
Implicit Types (l pre suf : list A) (x y e : A).

Lemma size_to_nat l : Z.to_nat (size l) = length l.
Proof. unfold size. lia. Qed.

(** Exchanging two adjacent cells. *)
Lemma swap_adjacent pre x y suf :
  <[Z.to_nat (size pre + 1) := x]>
    (<[Z.to_nat (size pre) := y]> (pre ++ x :: y :: suf))
  = pre ++ y :: x :: suf.
Proof.
  replace (Z.to_nat (size pre + 1)) with (length pre + 1)%nat
    by (unfold size; lia).
  replace (Z.to_nat (size pre)) with (length pre + 0)%nat
    by (unfold size; lia).
  by rewrite !insert_app_r.
Qed.

(** Overwriting the last cell. *)
Lemma insert_last_take l (n : nat) e :
  length l = S n -> <[n := e]> l = take n l ++ [e].
Proof.
  intros Hl. rewrite <- (take_drop n l) at 1.
  assert (length (drop n l) = 1%nat) as Hd by (rewrite length_drop; lia).
  destruct (drop n l) as [|z [|]]; try done.
  replace n with (length (take n l) + 0)%nat at 1
    by (rewrite length_take; lia).
  by rewrite insert_app_r.
Qed.

Lemma snoc_nonempty_inv l : l <> [] -> exists l' z, l = l' ++ [z].
Proof.
  intros Hl. destruct (last l) as [z|] eqn:E.
  - apply last_Some in E as [l' ->]. eauto.
  - apply last_None in E. done.
Qed.
End ListMoves.

Section Removal.
Context {T : Type}.
Implicit Types (s : Vector T) (h a b : ID) (p i j : Z) (v x y : T).

Lemma remove_unfold id s :
  remove id s =
    match at_ (m_IDs s) (value id), back (m_RevIDs s) with
    | Some _, Some lastDataID =>
        (remove_relocate id lastDataID;; remove_finish id) s
    | _, _ => Undef
    end.
Proof.
  unfold remove, remove_relocate, remove_finish, bind, this, defined.
  destruct (at_ (m_IDs s) (value id)); [|done].
  destruct (back (m_RevIDs s)); [|done].
  by destruct (m_KeepOrder s).
Qed.

Lemma remove_finish_run id d x r h s :
  m_Data s = d ++ [x] -> m_RevIDs s = r ++ [h] ->
  remove_finish id s = Ok tt (finished id d r s).
Proof.
  intros Hd Hr.
  unfold remove_finish, bind, this, assign, defined, clear; simpl.
  rewrite Hd, pop_back_snoc. simpl. rewrite Hr, pop_back_snoc. simpl.
  by destruct d.
Qed.

Lemma Inv_finished h d x r s :
  Inv s -> m_Data s = d ++ [x] -> m_RevIDs s = r ++ [h] ->
  Inv (finished h d r s).
Proof.
  intros HI Hd Hr. unfold finished.
  destruct d as [|x0 d0]; [apply Inv_new|].
  set (d := x0 :: d0) in *.
  pose proof (inv_len _ HI) as Hlen. rewrite Hd, Hr, !size_app in Hlen.
  change (size [x]) with 1 in Hlen. change (size [h]) with 1 in Hlen.
  assert (at_ (m_RevIDs s) (size r) = Some h) as Hh
    by (rewrite Hr; apply at_snoc).
  destruct (inv_rev _ HI _ _ Hh) as [Hih Hfh].
  split; simpl.
  - lia.
  - intros p h' Hp.
    assert (at_ (m_RevIDs s) p = Some h') as Hp'.
    { rewrite Hr. apply at_snoc_Some. by left. }
    destruct (inv_rev _ HI _ _ Hp') as [Hi Hf]. split; [done|].
    intros [?| ->]%elem_of_snoc; [done|].
    pose proof (Inv_rev_inj _ _ _ _ HI Hp' Hh).
    apply at_Some_range in Hp. lia.
  - intros i p Hi. destruct (inv_ids _ HI _ _ Hi) as [?|Hrev].
    + left. apply elem_of_snoc. by left.
    + rewrite Hr in Hrev. apply at_snoc_Some in Hrev as [?|[_ <-]].
      * by right.
      * left. apply elem_of_snoc. by right.
  - apply NoDup_app. split_and!.
    + apply (inv_free_nodup _ HI).
    + intros h' Hh' ->%list_elem_of_singleton. done.
    + apply NoDup_singleton.
  - intros h' [?| ->]%elem_of_snoc.
    + by apply (inv_free_range _ HI).
    + by apply at_Some_range in Hih.
  - apply (inv_bound _ HI).
Qed.

(** The loop of the order-preserving mode moves the element at the
    counter's position behind every later element, one exchange at a
    time, and needs no more fuel than there are later elements. *)
Lemma remove_loop_bubble r_suf : forall d_suf r_pre d_pre h x s fuel,
  Inv s ->
  m_RevIDs s = r_pre ++ h :: r_suf ->
  m_Data s = d_pre ++ x :: d_suf ->
  size r_pre = size d_pre ->
  (length r_suf <= fuel)%nat ->
  exists s',
    remove_loop fuel (size r_pre) s = Ok tt s' /\ Inv s' /\
    m_RevIDs s' = r_pre ++ r_suf ++ [h] /\
    m_Data s' = d_pre ++ d_suf ++ [x] /\
    m_FreeIDSlots s' = m_FreeIDSlots s /\
    m_KeepOrder s' = m_KeepOrder s /\
    size (m_IDs s') = size (m_IDs s).
Proof.
  induction r_suf as [|b r_suf IH];
    intros d_suf r_pre d_pre h x s fuel HI Hr Hd Hpre Hfuel.
  - pose proof (inv_len _ HI) as Hlen. rewrite Hr, Hd, !size_app in Hlen.
    rewrite !size_cons in Hlen.
    assert (d_suf = []) as ->.
    { destruct d_suf; [done|]. rewrite size_cons in Hlen.
      pose proof (size_nonneg d_suf). change (size (@nil ID)) with 0 in Hlen.
      lia. }
    exists s. split_and!; try done.
    pose proof (Inv_data_bound _ HI) as Hb.
    assert (wrap (size (m_Data s) - 1) = size r_pre) as Hw.
    { rewrite Hd, size_app, size_cons in *. change (size (@nil T)) with 0 in *.
      pose proof (size_nonneg d_pre). rewrite wrap_small; lia. }
    destruct fuel; simpl; unfold bind, this; simpl;
      rewrite Hw, bool_decide_eq_false_2 by lia; done.
  - pose proof (inv_len _ HI) as Hlen. rewrite Hr, Hd, !size_app in Hlen.
    rewrite !size_cons in Hlen.
    destruct d_suf as [|y d_suf].
    { change (size (@nil T)) with 0 in Hlen. pose proof (size_nonneg r_suf).
      lia. }
    rewrite size_cons in Hlen.
    destruct fuel as [|fuel]; [simpl in Hfuel; lia|].
    pose proof (Inv_data_bound _ HI) as Hb.
    pose proof (size_nonneg d_pre). pose proof (size_nonneg d_suf).
    assert (wrap (size (m_Data s) - 1) = size r_pre + 1 + size d_suf) as Hw.
    { rewrite Hd, size_app, !size_cons in *. rewrite wrap_small; lia. }
    assert (wrap (size r_pre + 1) = size r_pre + 1) as Hw1.
    { rewrite Hd, size_app, !size_cons in Hb. rewrite wrap_small; lia. }
    assert (at_ (m_RevIDs s) (size r_pre) = Some h) as Hh
      by (rewrite Hr; apply at_middle).
    assert (at_ (m_RevIDs s) (size r_pre + 1) = Some b) as Hb'.
    { rewrite Hr. rewrite (cons_middle h), app_assoc.
      replace (size r_pre + 1) with (size (r_pre ++ [h]))
        by by rewrite size_app.
      apply at_middle. }
    assert (at_ (m_Data s) (size r_pre) = Some x) as Hx
      by (rewrite Hd, Hpre; apply at_middle).
    assert (at_ (m_Data s) (size r_pre + 1) = Some y) as Hy.
    { rewrite Hd. rewrite (cons_middle x), app_assoc.
      replace (size r_pre + 1) with (size (d_pre ++ [x]))
        by (rewrite size_app, Hpre; done).
      apply at_middle. }
    destruct (inv_rev _ HI _ _ Hh) as [Hih _].
    destruct (inv_rev _ HI _ _ Hb') as [Hib _].
    pose proof (Inv_swap s h b _ _ x y HI Hh Hb') as HI1.
    pose proof (swapDataLocation_run s h b _ _ x y h b Hih Hib Hx Hy Hh Hb')
      as Hrun.
    set (s1 := MkVector _ _ _ _ _) in HI1, Hrun.
    destruct (IH d_suf (r_pre ++ [b]) (d_pre ++ [y]) h x s1 fuel) as
      (s' & Hloop & HI' & Hr' & Hd' & Hf' & Hk' & Hn'); try done.
    + unfold s1; simpl. rewrite Hr at 1.
      by rewrite swap_adjacent, (cons_middle b), app_assoc.
    + unfold s1; simpl. rewrite Hd at 1. rewrite Hpre.
      by rewrite swap_adjacent, (cons_middle y), app_assoc.
    + rewrite !size_app. change (size [b]) with 1. change (size [y]) with 1.
      lia.
    + simpl in Hfuel. lia.
    + exists s'. rewrite size_app in Hloop. change (size [b]) with 1 in Hloop.
      split_and!.
      * simpl. unfold bind at 1, this at 1.
        rewrite Hw, bool_decide_eq_true_2 by lia.
        rewrite Hw1.
        erewrite bind_Ok by (apply idAt_run; exact Hh).
        erewrite bind_Ok by (apply idAt_run; exact Hb').
        erewrite bind_Ok by exact Hrun. exact Hloop.
      * done.
      * by rewrite Hr', <- app_assoc.
      * by rewrite Hd', <- app_assoc.
      * by rewrite Hf'.
      * by rewrite Hk'.
      * rewrite Hn'. unfold s1; simpl. by rewrite !size_insert.
Qed.

(** A live handle, its storage position and its element. *)
Lemma Inv_valid_cell s h :
  Inv s -> validID h s = true ->
  exists p x,
    at_ (m_IDs s) (value h) = Some p /\ at_ (m_RevIDs s) p = Some h /\
    at_ (m_Data s) p = Some x.
Proof.
  intros HI Hv. destruct (Inv_valid_live _ _ HI Hv) as (p & Hp & Hr).
  destruct (at_in_range (m_Data s) p) as [x Hx].
  { rewrite (inv_len _ HI). eauto using at_Some_range. }
  eauto.
Qed.

Lemma at_split {A} (l : list A) p z :
  at_ l p = Some z ->
  exists pre suf, l = pre ++ z :: suf /\ size pre = p /\
                  erase_at p l = pre ++ suf.
Proof.
  intros Hp. pose proof (at_Some_range _ _ _ Hp) as Hr.
  unfold at_ in Hp. rewrite bool_decide_eq_true_2 in Hp by lia.
  exists (take (Z.to_nat p) l), (drop (S (Z.to_nat p)) l). split_and!.
  - by rewrite take_drop_middle.
  - unfold size in *. rewrite length_take. lia.
  - unfold erase_at. apply delete_take_drop.
Qed.

(** Relocation in the order-preserving mode. *)
Lemma relocate_keep_order s h last p x :
  Inv s -> m_KeepOrder s = true ->
  at_ (m_IDs s) (value h) = Some p -> at_ (m_RevIDs s) p = Some h ->
  at_ (m_Data s) p = Some x ->
  exists s1,
    remove_relocate h last s = Ok tt s1 /\ Inv s1 /\
    m_RevIDs s1 = erase_at p (m_RevIDs s) ++ [h] /\
    m_Data s1 = erase_at p (m_Data s) ++ [x] /\
    m_FreeIDSlots s1 = m_FreeIDSlots s /\
    m_KeepOrder s1 = m_KeepOrder s /\
    size (m_IDs s1) = size (m_IDs s).
Proof.
  intros HI Hk Hi Hr Hx.
  destruct (at_split _ _ _ Hr) as (r_pre & r_suf & Er & Hsr & Err).
  destruct (at_split _ _ _ Hx) as (d_pre & d_suf & Ed & Hsd & Edd).
  destruct (remove_loop_bubble r_suf d_suf r_pre d_pre h x s
              (length (m_Data s))) as (s1 & Hloop & HI1 & ? & ? & ? & ? & ?);
    try done.
  - lia.
  - pose proof (inv_len _ HI) as Hlen. unfold size in Hlen.
    rewrite Er, Ed, !length_app in *. simpl in *. lia.
  - exists s1. rewrite Err, Edd, <- !app_assoc. split_and!; try done.
    unfold remove_relocate, bind at 1, this at 1. rewrite Hk.
    erewrite bind_Ok by (apply indexOf_run; exact Hi).
    by rewrite <- Hsr.
Qed.

(** Relocation in the swap-remove mode. *)
Lemma relocate_swap s h hl p x :
  Inv s -> m_KeepOrder s = false ->
  at_ (m_IDs s) (value h) = Some p -> at_ (m_RevIDs s) p = Some h ->
  at_ (m_Data s) p = Some x ->
  back (m_RevIDs s) = Some hl ->
  exists s1,
    remove_relocate h hl s = Ok tt s1 /\ Inv s1 /\
    m_RevIDs s1 = swap_erase_at p (m_RevIDs s) ++ [h] /\
    m_Data s1 = swap_erase_at p (m_Data s) ++ [x] /\
    m_FreeIDSlots s1 = m_FreeIDSlots s /\
    m_KeepOrder s1 = m_KeepOrder s /\
    size (m_IDs s1) = size (m_IDs s) /\
    m_IDs s1 =
      <[Z.to_nat (value hl) := p]>
        (<[Z.to_nat (value h) := size (m_RevIDs s) - 1]> (m_IDs s)).
Proof.
  intros HI Hk Hi Hr Hx Hlast.
  pose proof (inv_len _ HI) as Hlen.
  pose proof (back_Some _ _ Hlast) as [r Er].
  assert (m_Data s <> []) as Hne.
  { intros E. rewrite E, Er, size_app in Hlen.
    change (size (@nil T)) with 0 in Hlen. change (size [hl]) with 1 in Hlen.
    pose proof (size_nonneg r). lia. }
  destruct (snoc_nonempty_inv _ Hne) as (d & xl & Ed).
  assert (size d = size r) as Hdr.
  { rewrite Er, Ed, !size_app in Hlen. change (size [hl]) with 1 in Hlen.
    change (size [xl]) with 1 in Hlen. lia. }
  assert (at_ (m_RevIDs s) (size r) = Some hl) as Hl
    by (rewrite Er; apply at_snoc).
  assert (at_ (m_Data s) (size r) = Some xl) as Hxl
    by (rewrite Ed, <- Hdr; apply at_snoc).
  destruct (inv_rev _ HI _ _ Hl) as [Hil _].
  pose proof (Inv_swap s h hl _ _ x xl HI Hr Hl) as HI1.
  pose proof (swapDataLocation_run s h hl _ _ x xl h hl
                Hi Hil Hx Hxl Hr Hl) as Hrun.
  set (s1 := MkVector _ _ _ _ _) in HI1, Hrun.
  exists s1. split_and!; try done.
  - unfold remove_relocate, bind, this. by rewrite Hk.
  - unfold s1; simpl. unfold swap_erase_at.
    replace (last (m_RevIDs s)) with (Some hl).
    rewrite size_to_nat. rewrite insert_last_take.
    + do 2 f_equal. rewrite Er, length_app. simpl. lia.
    + rewrite length_insert, Er, length_app. simpl. lia.
  - unfold s1; simpl. unfold swap_erase_at.
    replace (last (m_Data s)) with (Some xl) by by rewrite Ed, last_snoc.
    rewrite <- Hdr. rewrite size_to_nat. rewrite insert_last_take.
    + do 2 f_equal. rewrite Ed, length_app. simpl. lia.
    + rewrite length_insert, Ed, length_app. simpl. lia.
  - unfold s1; simpl. by rewrite !size_insert.
  - assert (size (m_RevIDs s) - 1 = size r) as ->
      by (rewrite Er, size_app; change (size [hl]) with 1; lia).
    reflexivity.
Qed.

(** [remove] on a live handle. *)
Lemma remove_spec s h :
  Inv s -> validID h s = true ->
  exists p x s',
    at_ (m_IDs s) (value h) = Some p /\ at_ (m_RevIDs s) p = Some h /\
    at_ (m_Data s) p = Some x /\
    remove h s = Ok tt s' /\ Inv s' /\
    m_KeepOrder s' = m_KeepOrder s /\
    m_Data s' = erased (m_KeepOrder s) p (m_Data s) /\
    m_RevIDs s' = erased (m_KeepOrder s) p (m_RevIDs s) /\
    (m_Data s' = [] -> s' = Vector_new (m_KeepOrder s)) /\
    (m_Data s' <> [] ->
       m_FreeIDSlots s' = m_FreeIDSlots s ++ [h] /\
       size (m_IDs s') = size (m_IDs s)).
Proof.
  intros HI Hv.
  destruct (Inv_valid_cell _ _ HI Hv) as (p & x & Hi & Hr & Hx).
  exists p, x.
  destruct (back (m_RevIDs s)) as [hl|] eqn:Hlast.
  2:{ apply last_None in Hlast. rewrite Hlast, at_nil in Hr. done. }
  assert (exists s1,
    remove_relocate h hl s = Ok tt s1 /\ Inv s1 /\
    m_RevIDs s1 = erased (m_KeepOrder s) p (m_RevIDs s) ++ [h] /\
    m_Data s1 = erased (m_KeepOrder s) p (m_Data s) ++ [x] /\
    m_FreeIDSlots s1 = m_FreeIDSlots s /\
    m_KeepOrder s1 = m_KeepOrder s /\
    size (m_IDs s1) = size (m_IDs s))
    as (s1 & Hrel & HI1 & Hr1 & Hd1 & Hf1 & Hk1 & Hn1).
  { destruct (m_KeepOrder s) eqn:Hk; simpl.
    - destruct (relocate_keep_order s h hl p x)
        as (s1 & ? & ? & ? & ? & ? & Hk1 & ?); try done.
      rewrite Hk in Hk1. by exists s1.
    - destruct (relocate_swap s h hl p x)
        as (s1 & ? & ? & ? & ? & ? & Hk1 & ? & _); try done.
      rewrite Hk in Hk1. by exists s1. }
  pose proof (remove_finish_run h _ _ _ _ _ Hd1 Hr1) as Hfin.
  pose proof (Inv_finished _ _ _ _ _ HI1 Hd1 Hr1) as HI2.
  set (d' := erased (m_KeepOrder s) p (m_Data s)) in *.
  set (r' := erased (m_KeepOrder s) p (m_RevIDs s)) in *.
  assert (size d' = size r') as Hdr.
  { pose proof (inv_len _ HI1) as Hlen. rewrite Hd1, Hr1, !size_app in Hlen.
    change (size [x]) with 1 in Hlen. change (size [h]) with 1 in Hlen. lia. }
  exists (finished h d' r' s1). split_and!; try done.
  - rewrite remove_unfold, Hi, Hlast.
    erewrite bind_Ok by exact Hrel. exact Hfin.
  - unfold finished. destruct d'; simpl; congruence.
  - unfold finished. by destruct d'.
  - unfold finished. destruct d'; simpl; [|done].
    destruct r'; [done|]. rewrite size_cons in Hdr.
    change (size (@nil T)) with 0 in Hdr. pose proof (size_nonneg r'). lia.
  - unfold finished. destruct d'; simpl; [by rewrite Hk1|done].
  - unfold finished. destruct d'; simpl; [done|]. intros _.
    by rewrite Hf1.
Qed.
End Removal.

(** * Checked access *)

Section CheckedAccess.
Context {T : Type}.
Implicit Types (s : Vector T) (h a b : ID) (p i j : Z) (v x y : T).

Lemma get_valid_run s h p x :
  validID h s = true ->
  at_ (m_IDs s) (value h) = Some p -> at_ (m_Data s) p = Some x ->
  get h s = Ok x s.
Proof.
  intros Hv Hp Hx. unfold get, bind, this, defined. by rewrite Hv, Hp, Hx.
Qed.

Lemma get_valid s h :
  Inv s -> validID h s = true ->
  exists p x,
    at_ (m_RevIDs s) p = Some h /\ at_ (m_Data s) p = Some x /\
    get h s = Ok x s.
Proof.
  intros HI Hv.
  destruct (Inv_valid_cell _ _ HI Hv) as (p & x & Hi & Hr & Hx).
  exists p, x. eauto using get_valid_run.
Qed.

(** With the invariant, [get] returns the element stored where the
    reverse table holds the handle. *)
Lemma get_cell s h p x :
  Inv s -> at_ (m_RevIDs s) p = Some h -> at_ (m_Data s) p = Some x ->
  get h s = Ok x s.
Proof.
  intros HI Hr Hx. destruct (inv_rev _ HI _ _ Hr) as [Hi _].
  eapply get_valid_run; eauto using Inv_live_valid.
Qed.

Lemma get_out_of_bounds s h :
  ~ (0 <= value h < size (m_IDs s)) ->
  get h s = Throw (invalid_argument h reason_out_of_bounds) s.
Proof.
  intros Hr. unfold get, bind, this, throw.
  replace (validID h s) with false
    by (symmetry; apply validID_false; by left).
  destruct (decide (value h < 0)).
  - by rewrite bool_decide_eq_true_2.
  - rewrite bool_decide_eq_false_2 by done.
    rewrite bool_decide_eq_true_2 by lia. done.
Qed.

Lemma get_deleted s h :
  0 <= value h < size (m_IDs s) -> h ∈ m_FreeIDSlots s ->
  get h s = Throw (invalid_argument h reason_deleted) s.
Proof.
  intros Hr Hf. unfold get, bind, this, throw.
  replace (validID h s) with false
    by (symmetry; apply validID_false; by right).
  rewrite !bool_decide_eq_false_2 by lia. done.
Qed.

Lemma invalid_argument_reason_inj h r1 r2 :
  invalid_argument h r1 = invalid_argument h r2 -> r1 = r2.
Proof.
  unfold invalid_argument. intros H.
  by repeat apply (inj (String.append _)) in H.
Qed.

Lemma reasons_distinct : reason_out_of_bounds <> reason_deleted.
Proof. done. Qed.
End CheckedAccess.

(** * What removal leaves in a vector *)

Section Erased.
Context {A : Type}.
Implicit Types (l : list A) (p q : Z) (z : A).

Lemma at_erase_at l p q :
  0 <= p -> 0 <= q ->
  at_ (erase_at p l) q = if decide (q < p) then at_ l q else at_ l (q + 1).
Proof.
  intros Hp Hq. unfold at_, erase_at.
  rewrite !bool_decide_eq_true_2 by lia. case_decide.
  - apply list_lookup_delete_lt. lia.
  - rewrite list_lookup_delete_ge by lia. f_equal. lia.
Qed.

Lemma at_swap_erase_at l p q z :
  back l = Some z -> 0 <= p < size l ->
  at_ (swap_erase_at p l) q =
    if decide (q < size l - 1)
    then if decide (q = p) then Some z else at_ l q
    else None.
Proof.
  intros Hz Hp. unfold swap_erase_at. unfold back in Hz. rewrite Hz.
  destruct (decide (0 <= q)) as [Hq|Hq].
  - unfold at_ at 1. rewrite bool_decide_eq_true_2 by done.
    rewrite lookup_take. unfold size. repeat case_decide; try lia.
    + subst. apply list_lookup_insert_eq. unfold size in Hp. lia.
    + unfold at_. rewrite bool_decide_eq_true_2 by done.
      apply list_lookup_insert_ne. lia.
    + done.
  - assert (at_ l q = None) as -> by (apply at_None; lia).
    assert (forall l', at_ l' q = None) as -> by (intros; apply at_None; lia).
    repeat case_decide; try done. lia.
Qed.

Lemma size_erased k l p z :
  at_ l p = Some z -> size (erased k p l) = size l - 1.
Proof.
  intros Hp. pose proof (at_Some_range _ _ _ Hp) as Hr.
  unfold erased, erase_at, swap_erase_at, size in *. destruct k.
  - rewrite length_delete; [lia|].
    unfold at_ in Hp. rewrite bool_decide_eq_true_2 in Hp by lia. eauto.
  - destruct (last l) eqn:E.
    + rewrite length_take, length_insert. lia.
    + apply last_None in E. subst. simpl in Hr. lia.
Qed.
End Erased.

(** A cell other than the removed one is found again after the removal,
    with the same handle and the same element. *)
Lemma erased_cell {A B} k (l1 : list A) (l2 : list B) p q0 a b :
  size l1 = size l2 -> 0 <= p < size l1 ->
  at_ l1 q0 = Some a -> at_ l2 q0 = Some b -> q0 <> p ->
  exists q, at_ (erased k p l1) q = Some a /\ at_ (erased k p l2) q = Some b.
Proof.
  intros Hlen Hp Ha Hb Hne.
  pose proof (at_Some_range _ _ _ Ha) as Hr.
  destruct k; simpl.
  - exists (if decide (q0 < p) then q0 else q0 - 1).
    rewrite !at_erase_at by (try case_decide; lia).
    repeat case_decide; try lia; try done.
    by replace (q0 - 1 + 1) with q0 by lia.
  - destruct (at_in_range l1 (size l1 - 1)) as [z1 Hz1]; [lia|].
    destruct (at_in_range l2 (size l2 - 1)) as [z2 Hz2]; [lia|].
    assert (back l1 = Some z1) as Hb1.
    { unfold at_ in Hz1. rewrite bool_decide_eq_true_2 in Hz1 by lia.
      unfold back. rewrite last_lookup. rewrite <- Hz1. f_equal.
      unfold size. lia. }
    assert (back l2 = Some z2) as Hb2.
    { unfold at_ in Hz2. rewrite bool_decide_eq_true_2 in Hz2 by lia.
      unfold back. rewrite last_lookup. rewrite <- Hz2. f_equal.
      unfold size. lia. }
    exists (if decide (q0 = size l1 - 1) then p else q0).
    rewrite (at_swap_erase_at _ _ _ _ Hb1) by done.
    rewrite (at_swap_erase_at _ _ _ _ Hb2) by lia.
    repeat case_decide; try lia; try done.
    split; congruence.
Qed.

(** * How insertion and removal change validity and checked access *)

Section Effects.
Context {T : Type}.
Implicit Types (s : Vector T) (h a b : ID) (p i j : Z) (v x y : T).

Lemma push_spec s v :
  Inv s -> size (m_IDs s) < SIZE_MAX ->
  exists h s',
    push v s = Ok h s' /\ Inv s' /\
    m_KeepOrder s' = m_KeepOrder s /\
    m_Data s' = m_Data s ++ [v] /\
    m_RevIDs s' = m_RevIDs s ++ [h] /\
    validID h s = false /\
    size (m_IDs s') <= size (m_IDs s) + 1 /\
    (forall h', validID h' s' = true <-> validID h' s = true \/ h' = h).
Proof.
  intros HI Hroom.
  assert (exists h s', push v s = Ok h s' /\ Inv s' /\
            m_KeepOrder s' = m_KeepOrder s /\
            m_Data s' = m_Data s ++ [v] /\
            m_RevIDs s' = m_RevIDs s ++ [h] /\
            validID h s = false /\
            size (m_IDs s') <= size (m_IDs s) + 1)
    as (h & s' & Hp & HI' & Hk & Hd & Hr & Hv & Hn).
  { destruct (m_FreeIDSlots s) as [|h0 fl0] eqn:Hf.
    - eexists _, _. split; [by apply push_fresh|].
      rewrite (wrap_data_last _ _ HI). split_and!; try done.
      + by apply Inv_push_fresh.
      + apply validID_false. left. simpl. lia.
      + simpl. rewrite size_app. change (size [size (m_Data s)]) with 1. lia.
    - destruct (snoc_nonempty_inv (h0 :: fl0)) as (fl & h & Hfl); [done|].
      rewrite Hfl in Hf.
      assert (h ∈ m_FreeIDSlots s) as Hin
        by (rewrite Hf; apply elem_of_snoc; by right).
      pose proof (inv_free_range _ HI _ Hin) as Hr.
      eexists _, _. split; [by eapply push_recycle|].
      rewrite (wrap_data_last _ _ HI). split_and!; try done.
      + by apply Inv_push_recycle.
      + apply validID_false. by right.
      + simpl. rewrite size_insert. lia. }
  exists h, s'. split_and!; try done.
  intros h'. rewrite !Inv_valid_elem_of by done.
  rewrite Hr. apply elem_of_snoc.
Qed.

Lemma remove_valid s h :
  Inv s -> validID h s = true ->
  exists s',
    remove h s = Ok tt s' /\ Inv s' /\
    m_KeepOrder s' = m_KeepOrder s /\
    size (m_Data s') = size (m_Data s) - 1 /\
    size (m_IDs s') <= size (m_IDs s) /\
    (forall h', validID h' s' = true <-> validID h' s = true /\ h' <> h) /\
    (forall h' v, h' <> h -> get h' s = Ok v s -> get h' s' = Ok v s').
Proof.
  intros HI Hv.
  destruct (remove_spec _ _ HI Hv)
    as (p & x & s' & Hi & Hr & Hx & Hrm & HI' & Hk & Hd & Hr' & Hreset & Hkeep).
  pose proof (inv_len _ HI) as Hlen.
  pose proof (at_Some_range _ _ _ Hr) as Hpr.
  assert (forall h' q0 v, h' <> h ->
            at_ (m_RevIDs s) q0 = Some h' -> at_ (m_Data s) q0 = Some v ->
            exists q, at_ (m_RevIDs s') q = Some h' /\
                      at_ (m_Data s') q = Some v) as Hcell.
  { intros h' q0 v Hne Hq Hqv. rewrite Hd, Hr'.
    apply (erased_cell _ _ _ p q0); try done.
    intros ->. congruence. }
  exists s'. split_and!; try done.
  - rewrite Hd. by rewrite (size_erased _ _ _ _ Hx).
  - assert (m_Data s' = [] \/ m_Data s' <> []) as [E|E]
      by (destruct (m_Data s'); [by left|by right]).
    + rewrite (Hreset E). simpl. change (size (@nil Z)) with 0.
      apply size_nonneg.
    + destruct (Hkeep E) as [_ ->]. lia.
  - intros h'. split.
    + intros Hv'.
      assert (m_Data s' = [] \/ m_Data s' <> []) as [E|E]
        by (destruct (m_Data s'); [by left|by right]).
      * rewrite (Hreset E), validID_new in Hv'. done.
      * destruct (Hkeep E) as [Hf Hn].
        apply validID_spec in Hv' as [Hrg Hnf]. rewrite Hf in Hnf.
        rewrite Hn in Hrg. split.
        -- apply validID_spec. split; [done|].
           intros Hin. apply Hnf, elem_of_snoc. by left.
        -- intros ->. apply Hnf, elem_of_snoc. by right.
    + intros [Hv' Hne].
      destruct (Inv_valid_cell _ _ HI Hv') as (q0 & v & _ & Hq & Hqv).
      destruct (Hcell _ _ _ Hne Hq Hqv) as (q & Hq' & _).
      eauto using Inv_live_valid.
  - intros h' v Hne Hg.
    destruct (validID h' s) eqn:Hv'.
    + destruct (Inv_valid_cell _ _ HI Hv') as (q0 & v0 & Hi0 & Hq & Hqv).
      rewrite (get_valid_run _ _ _ _ Hv' Hi0 Hqv) in Hg.
      inversion Hg; subst v0.
      destruct (Hcell _ _ _ Hne Hq Hqv) as (q & Hq' & Hqv').
      eauto using get_cell.
    + unfold get, bind, this, throw in Hg. by rewrite Hv' in Hg.
Qed.
End Effects.

(** * Histories of operations *)

Section Histories.
Context {T : Type} `{!limits T}.
Implicit Types (s : Vector T) (h : ID) (v : T) (live : list ID).

Lemma get_total s h :
  Inv s ->
  (exists x, get h s = Ok x s) \/ (exists m, get h s = Throw m s).
Proof.
  intros HI. destruct (validID h s) eqn:Hv.
  - destruct (get_valid _ _ HI Hv) as (p & x & _ & _ & Hg). eauto.
  - right. unfold get, bind, this, throw. rewrite Hv. eauto.
Qed.

Lemma clear_run s : clear s = Ok tt (Vector_new (m_KeepOrder s)).
Proof. reflexivity. Qed.

(** [reserve] returns or throws, and leaves the container as it was. *)
Lemma reserve_total n s :
  reserve n s = Ok tt s \/ reserve n s = Throw length_error s.
Proof.
  unfold reserve, bind, std_reserve, this, throw, ret.
  repeat case_bool_decide; auto.
Qed.

(** It returns when none of the three amounts is above its limit. *)
Lemma reserve_Ok n s :
  reserve n s = Ok tt s <->
  n <= max_size_Data /\
  wrap (n - size (m_FreeIDSlots s)) <= max_size_IDs /\
  n <= max_size_RevIDs.
Proof.
  unfold reserve, bind, std_reserve, this, throw, ret.
  repeat case_bool_decide; split; (done || lia || intros; lia).
Qed.

(** A history that starts from a consistent container and is short enough
    for the slot table to stay below the sentinel never gets stuck, and
    leaves a consistent container whose valid handles are the ledger's. *)
Lemma run_sound ops : forall s live,
  Inv s -> agrees s live ->
  size (m_IDs s) + Z.of_nat (length ops) <= SIZE_MAX ->
  run ops s live <> Stuck /\
  forall s' live', run ops s live = Done s' live' ->
                   Inv s' /\ agrees s' live'.
Proof.
  induction ops as [|o ops IH]; intros s live HI Hag Hroom.
  { split; [done|]. simpl. intros s' live' [= <- <-]. done. }
  rewrite length_cons, Nat2Z.inj_succ in Hroom.
  destruct o as [v|v|h| |n|h]; cbn [run].
  - destruct (push_spec s v HI)
      as (h & s' & -> & HI' & _ & _ & _ & _ & Hn & Hv); [lia|].
    apply IH; [done| |lia].
    intros h'. rewrite Hv, elem_of_cons, (Hag h'). tauto.
  - rewrite emplace_push.
    destruct (push_spec s v HI)
      as (h & s' & -> & HI' & _ & _ & _ & _ & Hn & Hv); [lia|].
    apply IH; [done| |lia].
    intros h'. rewrite Hv, elem_of_cons, (Hag h'). tauto.
  - case_bool_decide as Hin; [|done].
    apply Hag in Hin.
    destruct (remove_valid s h HI Hin) as (s' & -> & HI' & _ & _ & Hn & Hv & _).
    apply IH; [done| |lia].
    intros h'. rewrite Hv, list_elem_of_filter, (Hag h'). tauto.
  - rewrite clear_run. apply IH.
    + apply Inv_new.
    + intros h. rewrite validID_new. split; [done|].
      intros Hh. by apply elem_of_nil in Hh.
    + simpl. change (size (@nil Z)) with 0. pose proof (size_nonneg (m_IDs s)).
      lia.
  - destruct (reserve_total n s) as [-> | ->]; apply IH; done || lia.
  - destruct (get_total s h HI) as [[x ->]|[m ->]]; apply IH; done || lia.
Qed.
End Histories.

(** * The fuel of the removal loop *)

Section Fuel.
Context {T : Type}.
Implicit Types (s : Vector T) (a b : ID) (i : Z).

Lemma swapDataLocation_size a b s s1 :
  swapDataLocation a b s = Ok tt s1 ->
  size (m_Data s1) = size (m_Data s).
Proof.
  unfold swapDataLocation, bind, this, defined, assign.
  destruct (at_ (m_IDs s) (value a)) as [i|]; [|done].
  destruct (at_ (m_IDs s) (value b)) as [j|]; [|done].
  destruct (std_swap (m_IDs s) (value a) (value b)); [|done]. simpl.
  unfold std_swap at 1.
  destruct (at_ (m_Data s) i); [|done].
  destruct (at_ (m_Data s) j); [|done]. simpl.
  destruct (std_swap (m_RevIDs s) i j); [|done].
  intros [= <-]. simpl. by rewrite !size_insert.
Qed.

Lemma swapDataLocation_empty a b s :
  m_Data s = [] -> swapDataLocation a b s = Undef.
Proof.
  intros E. unfold swapDataLocation, bind, this, defined, assign.
  destruct (at_ (m_IDs s) (value a)) as [i|]; [|done].
  destruct (at_ (m_IDs s) (value b)) as [j|]; [|done].
  destruct (std_swap (m_IDs s) (value a) (value b)); [|done]. simpl.
  unfold std_swap at 1. by rewrite E, at_nil.
Qed.

(** One iteration of the loop, whatever the fuel left. *)
Lemma remove_loop_step fuel i s :
  remove_loop (S fuel) i s =
    if bool_decide (i < wrap (size (m_Data s) - 1)) then
      match at_ (m_RevIDs s) i, at_ (m_RevIDs s) (wrap (i + 1)) with
      | Some a, Some b =>
          match swapDataLocation a b s with
          | Ok _ s1 => remove_loop fuel (wrap (i + 1)) s1
          | Throw w s1 => Throw w s1
          | Undef => Undef
          end
      | _, _ => Undef
      end
    else Ok tt s.
Proof.
  simpl. unfold bind at 1, this at 1. case_bool_decide; [|done].
  cbv beta iota delta [bind idAt this defined].
  destruct (at_ (m_RevIDs s) i); [|done].
  by destruct (at_ (m_RevIDs s) (wrap (i + 1))).
Qed.

Lemma remove_loop_stop fuel i s :
  ~ i < wrap (size (m_Data s) - 1) -> remove_loop fuel i s = Ok tt s.
Proof.
  intros H. destruct fuel; simpl; unfold bind, this;
    by rewrite bool_decide_eq_false_2.
Qed.

Lemma remove_loop_enough f1 : forall f2 i s,
  0 <= i -> 1 <= size (m_Data s) <= SIZE_MAX + 1 ->
  (Z.to_nat (size (m_Data s) - 1 - i) <= f1)%nat ->
  (Z.to_nat (size (m_Data s) - 1 - i) <= f2)%nat ->
  remove_loop f1 i s = remove_loop f2 i s.
Proof.
  induction f1 as [|f1 IH]; intros f2 i s Hi Hsz H1 H2.
  - rewrite !remove_loop_stop; [done| |];
      rewrite wrap_small by (unfold SIZE_MAX in *; lia); lia.
  - destruct (decide (i < size (m_Data s) - 1)) as [Hc|Hc].
    2:{ rewrite !remove_loop_stop; [done| |];
          rewrite wrap_small by (unfold SIZE_MAX in *; lia); lia. }
    destruct f2 as [|f2]; [lia|].
    rewrite !remove_loop_step.
    rewrite (wrap_small (size (m_Data s) - 1)) by (unfold SIZE_MAX in *; lia).
    rewrite (wrap_small (i + 1)) by (unfold SIZE_MAX in *; lia).
    rewrite bool_decide_eq_true_2 by done.
    destruct (at_ (m_RevIDs s) i) as [a|]; [|done].
    destruct (at_ (m_RevIDs s) (i + 1)) as [b|]; [|done].
    destruct (swapDataLocation a b s) as [[] s1| |] eqn:E; try done.
    pose proof (swapDataLocation_size _ _ _ _ E) as Hs.
    apply IH; rewrite ?Hs; lia.
Qed.

(** [remove] gives the loop as much fuel as the dense store is long; more
    fuel changes nothing: the loop does not end for want of fuel. *)
Lemma remove_loop_fuel fuel i s :
  size (m_Data s) <= SIZE_MAX + 1 ->
  (length (m_Data s) <= fuel)%nat ->
  remove_loop fuel i s = remove_loop (length (m_Data s)) i s.
Proof.
  intros Hsz Hfuel.
  destruct (decide (i < wrap (size (m_Data s) - 1))) as [Hc|Hc].
  2:{ by rewrite !remove_loop_stop. }
  destruct (m_Data s) as [|x d] eqn:Ed.
  - simpl. destruct fuel as [|fuel]; [done|].
    rewrite remove_loop_step, Ed.
    rewrite bool_decide_eq_true_2 by done.
    destruct (at_ (m_RevIDs s) i) as [a|]; [|by simpl; unfold bind, this;
      rewrite Ed, bool_decide_eq_true_2].
    destruct (at_ (m_RevIDs s) (wrap (i + 1))) as [b|].
    + rewrite swapDataLocation_empty by done.
      simpl; unfold bind, this. by rewrite Ed, bool_decide_eq_true_2.
    + simpl; unfold bind, this. by rewrite Ed, bool_decide_eq_true_2.
  - rewrite <- Ed in *.
    assert (1 <= size (m_Data s)) as H1
      by (rewrite Ed, size_cons; pose proof (size_nonneg d); lia).
    destruct (decide (0 <= i)) as [Hi|Hi].
    + apply remove_loop_enough; try done; unfold size in *; lia.
    + destruct fuel as [|fuel]; [rewrite Ed in Hfuel; simpl in Hfuel; lia|].
      rewrite Ed at 1. simpl length. rewrite !remove_loop_step.
      rewrite bool_decide_eq_true_2 by done.
      by replace (at_ (m_RevIDs s) i) with (@None ID)
        by (symmetry; apply at_None; lia).
Qed.
End Fuel.

(** * The stated properties *)

Section Reachable.
Context {T : Type} `{!limits T}.
Implicit Types (s : Vector T) (h : ID) (v : T) (live : list ID).

(** Histories start from a freshly constructed container. *)
Lemma run_new_sound (ops : list (@op T)) keepOrder :
  Z.of_nat (length ops) <= SIZE_MAX ->
  run ops (Vector_new keepOrder) [] <> Stuck /\
  forall s live, run ops (Vector_new keepOrder) [] = Done s live ->
                 Inv s /\ agrees s live.
Proof.
  intros Hlen. apply run_sound.
  - apply Inv_new.
  - intros h. rewrite validID_new. split; [done|].
    intros Hh. by apply elem_of_nil in Hh.
  - simpl. change (size (@nil Z)) with 0. lia.
Qed.

Lemma run_Inv (ops : list (@op T)) keepOrder s live :
  Z.of_nat (length ops) <= SIZE_MAX ->
  run ops (Vector_new keepOrder) [] = Done s live -> Inv s.
Proof.
  intros Hlen Hrun. destruct (run_new_sound ops keepOrder Hlen) as [_ Hd].
  by destruct (Hd _ _ Hrun).
Qed.

Lemma live_handles_count s :
  Inv s -> size (live_handles s) = size (m_RevIDs s).
Proof.
  intros HI. unfold size. f_equal. apply Permutation_length.
  apply NoDup_Permutation.
  - apply NoDup_filter, NoDup_fmap_2; [apply _|apply NoDup_seqZ].
  - by apply Inv_rev_NoDup.
  - intros h. unfold live_handles.
    rewrite list_elem_of_filter, list_elem_of_fmap.
    rewrite <- (Inv_valid_elem_of _ _ HI). split; [tauto|].
    intros Hv. split; [done|]. exists (value h).
    rewrite MkID_value. split; [done|].
    apply validID_spec in Hv as [Hr _]. apply elem_of_seqZ. lia.
Qed.
End Reachable.

(** C1. Validity partition: after every history of operations on a fresh
    container in which [remove] is only applied to handles that [push] or
    [emplace] returned and that were not removed or cleared since, no
    operation is undefined, and [validID h] holds exactly for the handles
    [h] that were returned by [push] or [emplace] and have not since been
    passed to [remove] nor dropped by [clear]. *)
Theorem validID_partition {T} `{!limits T} (ops : list (@op T)) (keepOrder : bool) :
  Z.of_nat (length ops) <= SIZE_MAX ->
  run ops (Vector_new keepOrder) [] <> Stuck /\
  forall s live,
    run ops (Vector_new keepOrder) [] = Done s live ->
    forall h, validID h s = true <-> h ∈ live.
Proof.
  intros Hlen. destruct (run_new_sound ops keepOrder Hlen) as [Hns Hd].
  split; [done|]. intros s live Hrun. by destruct (Hd _ _ Hrun).
Qed.

Lemma validID_partition_witness :
  exists s live,
    run sample_history (Vector_new true) [] = Done s live /\
    forall h, validID h s = true <-> h ∈ live.
Proof.
  eexists _, _. split; [vm_compute; reflexivity|].
  apply (validID_partition sample_history true);
    [vm_compute; discriminate|vm_compute; reflexivity].
Defined.

(** ** Sample containers *)

Lemma abcd_run :
  run abcd_history (Vector_new true) [] =
    Done abcd [MkID 3; MkID 2; MkID 1; MkID 0].
Proof. vm_compute. reflexivity. Qed.

Lemma acd_run :
  run (abcd_history ++ [OpRemove (MkID 1)]) (Vector_new true) [] =
    Done acd [MkID 3; MkID 2; MkID 0].
Proof. vm_compute. reflexivity. Qed.

Lemma abc_swap_run :
  run abc_history (Vector_new false) [] =
    Done abc_swap [MkID 2; MkID 1; MkID 0].
Proof. vm_compute. reflexivity. Qed.

Lemma Inv_abcd : Inv abcd.
Proof.
  eapply run_Inv; [|exact abcd_run]. vm_compute. discriminate.
Qed.

Lemma Inv_acd : Inv acd.
Proof.
  eapply run_Inv; [|exact acd_run]. vm_compute. discriminate.
Qed.

Lemma Inv_abc_swap : Inv abc_swap.
Proof.
  eapply run_Inv; [|exact abc_swap_run]. vm_compute. discriminate.
Qed.

(** C2. Round trip: in every container that satisfies the invariant (every
    container a history leaves), [push v] returns a handle that is at once
    valid and for which [get] returns [v]. *)
Theorem push_get_round_trip {T} (s : Vector T) (v : T) :
  Inv s ->
  exists h s',
    push v s = Ok h s' /\ validID h s' = true /\ get h s' = Ok v s'.
Proof.
  intros HI. pose proof (wrap_data_last s v HI) as Hw.
  destruct (m_FreeIDSlots s) as [|h0 fl0] eqn:Hf.
  - eexists _, _. split; [by apply push_fresh|]. rewrite Hw.
    assert (validID (MkID (size (m_IDs s)))
              (MkVector (m_KeepOrder s) (m_Data s ++ [v])
                 (m_IDs s ++ [size (m_Data s)])
                 (m_RevIDs s ++ [MkID (size (m_IDs s))]) []) = true) as Hv.
    { apply validID_spec. simpl. rewrite size_app.
      change (size [size (m_Data s)]) with 1.
      pose proof (size_nonneg (m_IDs s)).
      split; [lia|apply not_elem_of_nil]. }
    split; [done|].
    eapply get_valid_run; [done| |]; simpl; apply at_snoc.
  - destruct (snoc_nonempty_inv (h0 :: fl0)) as (fl & h & Hfl); [done|].
    rewrite Hfl in Hf.
    assert (h ∈ m_FreeIDSlots s) as Hin
      by (rewrite Hf; apply elem_of_snoc; by right).
    pose proof (inv_free_range _ HI _ Hin) as Hr.
    pose proof (inv_free_nodup _ HI) as Hnd. rewrite Hf in Hnd.
    apply NoDup_app in Hnd as (_ & Hdisj & _).
    eexists _, _. split; [by eapply push_recycle|]. rewrite Hw.
    assert (validID h
              (MkVector (m_KeepOrder s) (m_Data s ++ [v])
                 (<[Z.to_nat (value h) := size (m_Data s)]> (m_IDs s))
                 (m_RevIDs s ++ [h]) fl) = true) as Hv.
    { apply validID_spec. simpl. rewrite size_insert. split; [done|].
      intros Hh. apply (Hdisj _ Hh). by apply list_elem_of_singleton. }
    split; [done|].
    eapply get_valid_run; [done| |]; simpl.
    + rewrite at_insert by done. by rewrite decide_True.
    + apply at_snoc.
Qed.

Lemma push_get_round_trip_witness :
  exists h s',
    push "E"%string acd = Ok h s' /\ validID h s' = true /\
    get h s' = Ok "E"%string s'.
Proof. apply (push_get_round_trip acd "E"%string Inv_acd). Defined.

(** C5. Bidirectional consistency: after every operation of a history (the
    history being arbitrary, its last operation is), for every valid handle
    [h] the reverse table at [indexOf h] holds [h]; the dense store and the
    reverse table have one length, the number of valid handles; and two
    valid handles with one storage position are equal. *)
Theorem bidirectional_consistency {T} `{!limits T} (ops : list (@op T)) keepOrder s live :
  Z.of_nat (length ops) <= SIZE_MAX ->
  run ops (Vector_new keepOrder) [] = Done s live ->
  (forall h, validID h s = true ->
             exists p, indexOf h s = Ok p s /\ idAt p s = Ok h s) /\
  size (m_Data s) = size (m_RevIDs s) /\
  size (m_RevIDs s) = size (live_handles s) /\
  (forall h1 h2 p,
     validID h1 s = true -> validID h2 s = true ->
     indexOf h1 s = Ok p s -> indexOf h2 s = Ok p s -> h1 = h2).
Proof.
  intros Hlen Hrun. pose proof (run_Inv _ _ _ _ Hlen Hrun) as HI.
  split_and!.
  - intros h Hv. destruct (Inv_valid_live _ _ HI Hv) as (p & Hp & Hr).
    exists p. split; [by apply indexOf_run|by apply idAt_run].
  - apply (inv_len _ HI).
  - symmetry. by apply live_handles_count.
  - intros h1 h2 p Hv1 Hv2 H1 H2.
    destruct (Inv_valid_live _ _ HI Hv1) as (p1 & Hp1 & Hr1).
    destruct (Inv_valid_live _ _ HI Hv2) as (p2 & Hp2 & Hr2).
    rewrite (indexOf_run _ _ _ Hp1) in H1.
    rewrite (indexOf_run _ _ _ Hp2) in H2.
    congruence.
Qed.

Lemma bidirectional_consistency_witness :
  (forall h, validID h acd = true ->
             exists p, indexOf h acd = Ok p acd /\ idAt p acd = Ok h acd) /\
  size (m_Data acd) = size (m_RevIDs acd) /\
  size (m_RevIDs acd) = size (live_handles acd) /\
  (forall h1 h2 p,
     validID h1 acd = true -> validID h2 acd = true ->
     indexOf h1 acd = Ok p acd -> indexOf h2 acd = Ok p acd -> h1 = h2).
Proof.
  apply (bidirectional_consistency
           (abcd_history ++ [OpRemove (MkID 1)]) true acd
           [MkID 3; MkID 2; MkID 0]);
    [vm_compute; discriminate|vm_compute; reflexivity].
Defined.

(** C6. Error distinction: [get h] throws with the reason "ID out of
    bounds." when the index of [h] is outside the slot table, and with the
    reason "The object with this id has been deleted." when it is inside
    and in the free list; the two messages differ; the thrown outcome
    carries the container unchanged; and in a container that satisfies the
    invariant [get] returns an element in every other case. *)
Theorem get_error_cases {T} (s : Vector T) (h : ID) :
  (~ (0 <= value h < size (m_IDs s)) ->
   get h s = Throw (invalid_argument h reason_out_of_bounds) s) /\
  (0 <= value h < size (m_IDs s) -> h ∈ m_FreeIDSlots s ->
   get h s = Throw (invalid_argument h reason_deleted) s) /\
  (Inv s -> 0 <= value h < size (m_IDs s) -> h ∉ m_FreeIDSlots s ->
   exists x, get h s = Ok x s) /\
  invalid_argument h reason_out_of_bounds <> invalid_argument h reason_deleted.
Proof.
  split_and!.
  - apply get_out_of_bounds.
  - apply get_deleted.
  - intros HI Hr Hf.
    destruct (get_valid s h HI) as (p & x & _ & _ & Hg); [|by eauto].
    by apply validID_spec.
  - intros E%invalid_argument_reason_inj. by apply reasons_distinct.
Qed.

Lemma get_error_cases_witness :
  get (MkID 7) acd =
    Throw "ID: 7 is not a valid ID. ID out of bounds."%string acd /\
  get (MkID 1) acd =
    Throw
      "ID: 1 is not a valid ID. The object with this id has been deleted."%string
      acd /\
  get (MkID 2) acd = Ok "C"%string acd.
Proof.
  split_and!.
  - apply (proj1 (get_error_cases acd (MkID 7))). vm_compute.
    intros [_ H]. discriminate H.
  - apply (proj1 (proj2 (get_error_cases acd (MkID 1)))).
    + vm_compute. split; [discriminate|reflexivity].
    + vm_compute. apply list_elem_of_here.
  - vm_compute. reflexivity.
Defined.

(** ** Removal in the two modes *)

(** C3. Order-preserving removal: in a container that keeps the order,
    [remove h] on a valid handle whose element is stored at [p] leaves the
    dense store without its cell [p], the cells before [p] in place and
    every later cell one position nearer the front; the store is one
    shorter; [h] is no longer valid and every other handle still yields its
    element.  The scenario A, B, C, D with B removed gives A, C, D by
    position and by handle, an invalid [h1] and size 3. *)
Theorem order_preserving_remove :
  (forall T (s : Vector T) (h : ID),
     Inv s -> m_KeepOrder s = true -> validID h s = true ->
     exists p s',
       indexOf h s = Ok p s /\ remove h s = Ok tt s' /\
       m_Data s' = erase_at p (m_Data s) /\
       m_RevIDs s' = erase_at p (m_RevIDs s) /\
       (forall q, 0 <= q < p -> at_ (m_Data s') q = at_ (m_Data s) q) /\
       (forall q, p <= q -> at_ (m_Data s') q = at_ (m_Data s) (q + 1)) /\
       size_ s' = size_ s - 1 /\
       validID h s' = false /\
       (forall h' v, h' <> h -> get h' s = Ok v s -> get h' s' = Ok v s')) /\
  (exists s',
     order_preserving_scenario (Vector_new true) =
       Ok ("A", "C", "D", ("A", "C", "D"), false, 3)%string s').
Proof.
  split; [|eexists; vm_compute; reflexivity].
  intros T s h HI Hk Hv.
  destruct (remove_spec _ _ HI Hv)
    as (p & x & s' & Hi & Hr & Hx & Hrm & HI' & _ & Hd & Hr' & _).
  destruct (remove_valid _ _ HI Hv)
    as (s'' & Hrm' & _ & _ & Hsz & _ & Hval & Hget).
  assert (s'' = s') as -> by congruence.
  rewrite Hk in Hd, Hr'. simpl in Hd, Hr'.
  pose proof (at_Some_range _ _ _ Hx) as Hp.
  exists p, s'. split_and!; try done.
  - by apply indexOf_run.
  - intros q Hq. rewrite Hd, at_erase_at by lia. by rewrite decide_True by lia.
  - intros q Hq. rewrite Hd, at_erase_at by lia. by rewrite decide_False by lia.
  - destruct (validID h s') eqn:E; [|done].
    apply Hval in E as [_ E]. done.
Qed.

Lemma order_preserving_remove_witness :
  exists p s',
    indexOf (MkID 1) abcd = Ok p abcd /\ remove (MkID 1) abcd = Ok tt s' /\
    m_Data s' = erase_at p (m_Data abcd) /\
    m_RevIDs s' = erase_at p (m_RevIDs abcd) /\
    (forall q, 0 <= q < p -> at_ (m_Data s') q = at_ (m_Data abcd) q) /\
    (forall q, p <= q -> at_ (m_Data s') q = at_ (m_Data abcd) (q + 1)) /\
    size_ s' = size_ abcd - 1 /\
    validID (MkID 1) s' = false /\
    (forall h' v, h' <> MkID 1 ->
                  get h' abcd = Ok v abcd -> get h' s' = Ok v s').
Proof.
  apply (proj1 order_preserving_remove string abcd (MkID 1) Inv_abcd);
    vm_compute; reflexivity.
Defined.

Lemma back_at_last {A} (l : list A) z :
  at_ l (size l - 1) = Some z -> back l = Some z.
Proof.
  intros Hz. pose proof (at_Some_range _ _ _ Hz).
  unfold at_ in Hz. rewrite bool_decide_eq_true_2 in Hz by lia.
  unfold back. rewrite last_lookup, <- Hz. f_equal. unfold size. lia.
Qed.

(** C4. Swap removal: in a container that does not keep the order,
    [remove h] on a valid handle whose element is stored at [p] puts the
    last element and its handle at [p], records [p] in that handle's slot
    and the last position in the slot of [h], and shrinks the dense store
    and the reverse table by one; [h] is no longer valid and every other
    handle still yields its element.  The scenario A, B, C with A removed
    leaves [h0] invalid, [h1] and [h2] valid with B and C, and size 2. *)
Theorem swap_remove :
  (forall T (s : Vector T) (h : ID),
     Inv s -> m_KeepOrder s = false -> validID h s = true ->
     exists p hl xl s',
       indexOf h s = Ok p s /\
       back (m_RevIDs s) = Some hl /\ back (m_Data s) = Some xl /\
       remove h s = Ok tt s' /\
       m_Data s' = swap_erase_at p (m_Data s) /\
       m_RevIDs s' = swap_erase_at p (m_RevIDs s) /\
       size_ s' = size_ s - 1 /\
       (m_Data s' <> [] ->
        m_IDs s' =
          <[Z.to_nat (value hl) := p]>
            (<[Z.to_nat (value h) := size_ s - 1]> (m_IDs s))) /\
       (hl <> h ->
        indexOf hl s' = Ok p s' /\ idAt p s' = Ok hl s' /\
        dataAt p s' = Ok xl s') /\
       validID h s' = false /\
       (forall h' v, h' <> h -> get h' s = Ok v s -> get h' s' = Ok v s')) /\
  (exists s',
     swap_remove_scenario (Vector_new false) =
       Ok (false, true, true, ("B", "C"), 2)%string s').
Proof.
  split; [|eexists; vm_compute; reflexivity].
  intros T s h HI Hk Hv.
  destruct (remove_spec _ _ HI Hv)
    as (p & x & s' & Hi & Hr & Hx & Hrm & HI' & _ & Hd & Hr' & _).
  destruct (remove_valid _ _ HI Hv)
    as (s'' & Hrm' & _ & _ & Hsz & _ & Hval & Hget).
  assert (s'' = s') as -> by congruence.
  rewrite Hk in Hd, Hr'. simpl in Hd, Hr'.
  pose proof (inv_len _ HI) as Hlen.
  pose proof (at_Some_range _ _ _ Hx) as Hp.
  destruct (at_in_range (m_RevIDs s) (size (m_RevIDs s) - 1)) as [hl Hhl];
    [lia|].
  destruct (at_in_range (m_Data s) (size (m_Data s) - 1)) as [xl Hxl]; [lia|].
  pose proof (back_at_last _ _ Hhl) as Hbl.
  pose proof (back_at_last _ _ Hxl) as Hbx.
  exists p, hl, xl, s'. split_and!; try done.
  - by apply indexOf_run.
  - intros Hne.
    destruct (relocate_swap s h hl p x HI Hk Hi Hr Hx Hbl)
      as (s1 & Hrel & _ & Hr1 & Hd1 & _ & _ & _ & Hids).
    pose proof (remove_finish_run h _ _ _ _ _ Hd1 Hr1) as Hfin.
    assert (s' = finished h (swap_erase_at p (m_Data s))
                   (swap_erase_at p (m_RevIDs s)) s1) as Es'.
    { rewrite remove_unfold, Hi, Hbl in Hrm.
      erewrite bind_Ok in Hrm by exact Hrel. congruence. }
    rewrite <- Hd in Es'. rewrite Es'. unfold finished.
    destruct (m_Data s'); [done|]. simpl. rewrite Hids.
    unfold size_. by rewrite Hlen.
  - intros Hne.
    assert (p <> size (m_RevIDs s) - 1) as Hpl by (intros ->; congruence).
    assert (at_ (m_RevIDs s') p = Some hl) as Hrp.
    { rewrite Hr', (at_swap_erase_at _ _ _ _ Hbl) by lia.
      rewrite decide_True by lia. by rewrite decide_True. }
    destruct (inv_rev _ HI' _ _ Hrp) as [Hip _].
    split_and!.
    + by apply indexOf_run.
    + by apply idAt_run.
    + unfold dataAt, bind, this, defined.
      rewrite Hd, (at_swap_erase_at _ _ _ _ Hbx) by lia.
      rewrite decide_True by lia. by rewrite decide_True.
  - destruct (validID h s') eqn:E; [|done].
    apply Hval in E as [_ E]. done.
Qed.

Lemma swap_remove_witness :
  exists p hl xl s',
    indexOf (MkID 0) abc_swap = Ok p abc_swap /\
    back (m_RevIDs abc_swap) = Some hl /\ back (m_Data abc_swap) = Some xl /\
    remove (MkID 0) abc_swap = Ok tt s' /\
    m_Data s' = swap_erase_at p (m_Data abc_swap) /\
    m_RevIDs s' = swap_erase_at p (m_RevIDs abc_swap) /\
    size_ s' = size_ abc_swap - 1 /\
    (m_Data s' <> [] ->
     m_IDs s' =
       <[Z.to_nat (value hl) := p]>
         (<[Z.to_nat 0 := size_ abc_swap - 1]> (m_IDs abc_swap))) /\
    (hl <> MkID 0 ->
     indexOf hl s' = Ok p s' /\ idAt p s' = Ok hl s' /\
     dataAt p s' = Ok xl s') /\
    validID (MkID 0) s' = false /\
    (forall h' v, h' <> MkID 0 ->
                  get h' abc_swap = Ok v abc_swap -> get h' s' = Ok v s').
Proof.
  apply (proj1 swap_remove string abc_swap (MkID 0) Inv_abc_swap);
    vm_compute; reflexivity.
Defined.

(** ** Reset on empty *)

(** After A and B were inserted and removed in that order, the next
    insertion returns index 0 with the reset and index 1 without it, and
    [get] on the first handle reports another reason. *)
Lemma reset_is_observable : ~ reset_unobservable.
Proof.
  intros H.
  specialize (H (MkVector true ["B"%string] [1; 0] [MkID 1] [MkID 0])
                (Vector_new true)
                (MkVector true [] [1; 0] [] [MkID 0; MkID 1])
                (MkID 1)
                (do h <- push "C"%string; do s <- this;
                 ret (h, validID (MkID 0) s))).
  assert (run [OpPush "A"%string; OpPush "B"%string; OpRemove (MkID 0)]
            (Vector_new true) [] =
          Done (MkVector true ["B"%string] [1; 0] [MkID 1] [MkID 0]) [MkID 1])
    as Hrun by (vm_compute; reflexivity).
  eapply run_Inv in Hrun; [|vm_compute; discriminate].
  specialize (H Hrun). vm_compute in H.
  specialize (H eq_refl eq_refl eq_refl eq_refl). discriminate H.
Qed.

(** C7 (amended). Reset on empty: when [remove] deletes the only element
    of a container, it leaves the dense store, the slot table, the reverse
    table and the free list empty; the size is 0 and [validID] is false for
    every handle.  The reset shows afterwards: [get] reports
    "ID out of bounds." for every handle, and the next insertion returns
    index 0, where without the reset the removed handle would be in the
    free list, [get] would report it deleted and the next insertion would
    reuse it. *)
Theorem reset_on_empty {T} (s : Vector T) (h : ID) :
  Inv s -> validID h s = true -> size_ s = 1 ->
  exists s' sn,
    remove h s = Ok tt s' /\
    m_Data s' = [] /\ m_IDs s' = [] /\ m_RevIDs s' = [] /\
    m_FreeIDSlots s' = [] /\
    size_ s' = 0 /\
    (forall h', validID h' s' = false) /\
    (forall h', get h' s' =
                Throw (invalid_argument h' reason_out_of_bounds) s') /\
    (forall v, exists s2, push v s' = Ok (MkID 0) s2) /\
    remove_without_reset h s = Ok tt sn /\
    m_FreeIDSlots sn = m_FreeIDSlots s ++ [h] /\
    get h sn = Throw (invalid_argument h reason_deleted) sn /\
    (forall v, exists s2, push v sn = Ok h s2).
Proof.
  intros HI Hv Hsz.
  destruct (remove_spec _ _ HI Hv)
    as (p & x & s' & Hi & Hr & Hx & Hrm & HI' & _ & Hd & Hr' & Hreset & _).
  assert (m_Data s' = []) as Hempty.
  { pose proof (size_erased (m_KeepOrder s) _ _ _ Hx) as Hs.
    rewrite <- Hd in Hs. unfold size_ in Hsz.
    destruct (m_Data s'); [done|]. rewrite size_cons in Hs.
    pose proof (size_nonneg l). lia. }
  specialize (Hreset Hempty). subst s'.
  (* the same removal without the reset *)
  destruct (back (m_RevIDs s)) as [hl|] eqn:Hlast.
  2:{ apply last_None in Hlast. rewrite Hlast, at_nil in Hr. done. }
  assert (exists s1,
    remove_relocate h hl s = Ok tt s1 /\
    m_RevIDs s1 = erased (m_KeepOrder s) p (m_RevIDs s) ++ [h] /\
    m_Data s1 = erased (m_KeepOrder s) p (m_Data s) ++ [x] /\
    m_FreeIDSlots s1 = m_FreeIDSlots s /\
    size (m_IDs s1) = size (m_IDs s))
    as (s1 & Hrel & Hr1 & Hd1 & Hf1 & Hn1).
  { destruct (m_KeepOrder s) eqn:Hk; simpl.
    - destruct (relocate_keep_order s h hl p x)
        as (s1 & ? & ? & ? & ? & ? & ? & ?); try done. by exists s1.
    - destruct (relocate_swap s h hl p x)
        as (s1 & ? & ? & ? & ? & ? & ? & ? & _); try done. by exists s1. }
  pose proof (at_Some_range _ _ _ Hi) as Hrange.
  set (sn := MkVector (m_KeepOrder s1)
               (erased (m_KeepOrder s) p (m_Data s)) (m_IDs s1)
               (erased (m_KeepOrder s) p (m_RevIDs s))
               (m_FreeIDSlots s ++ [h])).
  assert (remove_without_reset h s = Ok tt sn) as Hnr.
  { unfold remove_without_reset.
    unfold bind at 1, this at 1, bind at 1, defined at 1. rewrite Hi.
    unfold bind at 1, defined at 1. rewrite Hlast.
    unfold remove_relocate, bind at 1, this at 1 in Hrel.
    erewrite bind_Ok by exact Hrel.
    unfold bind, this, assign, defined; simpl.
    rewrite Hd1, pop_back_snoc. simpl. rewrite Hr1, pop_back_snoc. simpl.
    unfold sn, set_RevIDs, set_Data, set_FreeIDSlots, push_back; simpl.
    by rewrite Hf1. }
  assert (h ∈ m_FreeIDSlots sn) as Hin
    by (unfold sn; simpl; apply elem_of_snoc; by right).
  exists (Vector_new (m_KeepOrder s)), sn. split_and!; try done.
  - intros h'. apply validID_new.
  - intros h'. apply get_out_of_bounds. simpl. change (size (@nil Z)) with 0.
    lia.
  - intros v. eexists. by rewrite push_fresh.
  - apply get_deleted; [|done]. unfold sn; simpl. by rewrite Hn1.
  - intros v. eexists. eapply push_recycle.
    + unfold sn; simpl. done.
    + unfold sn; simpl. by rewrite Hn1.
Qed.

Lemma reset_on_empty_witness :
  exists s' sn,
    let s := MkVector true ["B"%string] [1; 0] [MkID 1] [MkID 0] in
    let h := MkID 1 in
    remove h s = Ok tt s' /\
    m_Data s' = [] /\ m_IDs s' = [] /\ m_RevIDs s' = [] /\
    m_FreeIDSlots s' = [] /\
    size_ s' = 0 /\
    (forall h', validID h' s' = false) /\
    (forall h', get h' s' =
                Throw (invalid_argument h' reason_out_of_bounds) s') /\
    (forall v, exists s2, push v s' = Ok (MkID 0) s2) /\
    remove_without_reset h s = Ok tt sn /\
    m_FreeIDSlots sn = m_FreeIDSlots s ++ [h] /\
    get h sn = Throw (invalid_argument h reason_deleted) sn /\
    (forall v, exists s2, push v sn = Ok h s2).
Proof.
  apply (reset_on_empty
           (MkVector true ["B"%string] [1; 0] [MkID 1] [MkID 0]) (MkID 1)).
  - eapply (run_Inv [OpPush "A"%string; OpPush "B"%string; OpRemove (MkID 0)]
              true _ [MkID 1]); [vm_compute; discriminate|].
    vm_compute. reflexivity.
  - vm_compute. reflexivity.
  - vm_compute. reflexivity.
Defined.

(** ** Allocation of handles *)

(** A removal that does not empty the container appends the handle to the
    free list and leaves the slot table's length. *)
Lemma remove_keeps {T} (s : Vector T) (h : ID) :
  Inv s -> validID h s = true -> 1 < size_ s ->
  exists s',
    remove h s = Ok tt s' /\ Inv s' /\
    m_FreeIDSlots s' = m_FreeIDSlots s ++ [h] /\
    size (m_IDs s') = size (m_IDs s) /\
    size_ s' = size_ s - 1 /\
    (forall h', validID h' s' = true <-> validID h' s = true /\ h' <> h).
Proof.
  intros HI Hv Hsz.
  destruct (remove_spec _ _ HI Hv)
    as (p & x & s' & Hi & Hr & Hx & Hrm & HI' & _ & Hd & _ & _ & Hkeep).
  destruct (remove_valid _ _ HI Hv)
    as (s'' & Hrm' & _ & _ & Hsz' & _ & Hval & _).
  assert (s'' = s') as -> by congruence.
  assert (m_Data s' <> []) as Hne.
  { intros E. rewrite E in Hsz'. change (size (@nil T)) with 0 in Hsz'.
    unfold size_ in Hsz. lia. }
  destruct (Hkeep Hne) as [Hf Hn]. exists s'. by split_and!.
Qed.

(** C8. Allocation: with an empty free list [push] and [emplace] return
    the handle whose index is the slot table's length and append one slot;
    otherwise they return the last entry of the free list and take it off,
    the slot table keeping its length.  [remove] puts the handle at the end
    of the free list, so the most recently removed handle is reused first. *)
Theorem handle_allocation {T} (s : Vector T) (v : T) :
  (m_FreeIDSlots s = [] ->
   exists s',
     push v s = Ok (MkID (size (m_IDs s))) s' /\
     emplace v s = Ok (MkID (size (m_IDs s))) s' /\
     size (m_IDs s') = size (m_IDs s) + 1 /\
     m_FreeIDSlots s' = []) /\
  (forall fl h,
     m_FreeIDSlots s = fl ++ [h] -> 0 <= value h < size (m_IDs s) ->
     exists s',
       push v s = Ok h s' /\ emplace v s = Ok h s' /\
       size (m_IDs s') = size (m_IDs s) /\
       m_FreeIDSlots s' = fl) /\
  (forall h1 h2 v',
     Inv s -> validID h1 s = true -> validID h2 s = true -> h1 <> h2 ->
     2 < size_ s ->
     exists s', remove2_push2 h1 h2 v v' s = Ok (h2, h1) s').
Proof.
  split_and!.
  - intros Hf. eexists. change (emplace v s) with (push v s).
    rewrite (push_fresh _ _ Hf).
    split_and!; try done. simpl. rewrite size_app. done.
  - intros fl h Hf Hr. eexists.
    change (emplace v s) with (push v s).
    rewrite (push_recycle _ _ _ _ Hf Hr).
    split_and!; try done. simpl. by rewrite size_insert.
  - intros h1 h2 v' HI Hv1 Hv2 Hne Hsz.
    destruct (remove_keeps s h1 HI Hv1)
      as (s1 & Hr1 & HI1 & Hf1 & Hn1 & Hs1 & Hval1); [lia|].
    assert (validID h2 s1 = true) as Hv2' by by apply Hval1.
    destruct (remove_keeps s1 h2 HI1 Hv2')
      as (s2 & Hr2 & HI2 & Hf2 & Hn2 & Hs2 & Hval2); [lia|].
    apply validID_spec in Hv1 as [Hrg1 _].
    apply validID_spec in Hv2 as [Hrg2 _].
    assert (0 <= value h2 < size (m_IDs s2)) as Hrg2' by lia.
    pose proof (push_recycle s2 v _ _ Hf2 Hrg2') as Hp1.
    set (s3 := MkVector _ _ _ _ _) in Hp1.
    assert (0 <= value h1 < size (m_IDs s3)) as Hrg1'
      by (unfold s3; simpl; rewrite size_insert; lia).
    assert (m_FreeIDSlots s3 = m_FreeIDSlots s ++ [h1]) as Hf3
      by (unfold s3; simpl; done).
    pose proof (push_recycle s3 v' _ _ Hf3 Hrg1') as Hp2.
    eexists. unfold remove2_push2.
    erewrite bind_Ok by exact Hr1. erewrite bind_Ok by exact Hr2.
    erewrite bind_Ok by exact Hp1.
    erewrite bind_Ok by exact Hp2. reflexivity.
Qed.

Lemma handle_allocation_witness :
  (exists s', push "E"%string abcd = Ok (MkID 4) s') /\
  (exists s', push "E"%string acd = Ok (MkID 1) s') /\
  (exists s',
     remove2_push2 (MkID 3) (MkID 0) "E"%string "F"%string abcd =
       Ok (MkID 0, MkID 3) s').
Proof.
  split_and!.
  - destruct (proj1 (handle_allocation abcd "E"%string) eq_refl)
      as (s' & Hp & _). by exists s'.
  - destruct (proj1 (proj2 (handle_allocation acd "E"%string)) [] (MkID 1)
                eq_refl ltac:(vm_compute; split; [discriminate|reflexivity]))
      as (s' & Hp & _). by exists s'.
  - apply (proj2 (proj2 (handle_allocation abcd "E"%string))
             (MkID 3) (MkID 0) "F"%string Inv_abcd);
      try (vm_compute; reflexivity). discriminate.
Defined.

(** ** Reservation *)

(** C9. [reserve n] leaves the container as it was, and with it the
    validity of every handle, whether it returns or throws.  It returns
    when none of the three amounts it requests is above the [max_size()]
    of its table.  The amount for the slot table is [n] minus the length
    of the free list in 64-bit unsigned arithmetic: the difference itself
    when the free list is not longer than [n], and [2^64 - (length - n)]
    when it is longer.  That amount is above every [max_size()] (none is
    above [PTRDIFF_MAX], nor is the length of a vector), so [reserve] then
    throws [std::length_error], however small [n] is. *)
Theorem reserve_request {T} `{!limits T} (s : Vector T) (n : Z) :
  (exists s',
     (reserve n s = Ok tt s' \/ reserve n s = Throw length_error s') /\
     s' = s /\ forall h, validID h s' = validID h s) /\
  (reserve n s = Ok tt s <->
     n <= max_size_Data /\
     wrap (n - size (m_FreeIDSlots s)) <= max_size_IDs /\
     n <= max_size_RevIDs) /\
  (size (m_FreeIDSlots s) <= n <= SIZE_MAX ->
   wrap (n - size (m_FreeIDSlots s)) = n - size (m_FreeIDSlots s)) /\
  (0 <= n < size (m_FreeIDSlots s) -> size (m_FreeIDSlots s) <= SIZE_MAX ->
   wrap (n - size (m_FreeIDSlots s)) =
     2 ^ 64 - (size (m_FreeIDSlots s) - n) /\
   n < wrap (n - size (m_FreeIDSlots s))) /\
  (0 <= n < size (m_FreeIDSlots s) ->
   size (m_FreeIDSlots s) <= PTRDIFF_MAX -> max_size_IDs <= PTRDIFF_MAX ->
   max_size_IDs < wrap (n - size (m_FreeIDSlots s)) /\
   reserve n s = Throw length_error s).
Proof.
  pose proof (size_nonneg (m_FreeIDSlots s)).
  assert (0 <= n < size (m_FreeIDSlots s) ->
          size (m_FreeIDSlots s) <= SIZE_MAX ->
          wrap (n - size (m_FreeIDSlots s)) =
            2 ^ 64 - (size (m_FreeIDSlots s) - n)) as Hw.
  { intros Hn Hf. change SIZE_MAX with (2 ^ 64 - 1) in Hf.
    unfold wrap, size_t_bits.
    rewrite <- (Z.mod_add _ 1) by lia.
    rewrite Z.mod_small by lia. lia. }
  split_and!.
  - exists s. split; [apply reserve_total|done].
  - apply reserve_Ok.
  - intros Hn. apply wrap_small. lia.
  - intros Hn Hf. rewrite Hw by done. split; [done|].
    change SIZE_MAX with (2 ^ 64 - 1) in Hf. lia.
  - intros Hn Hf Hm.
    change PTRDIFF_MAX with (2 ^ 63 - 1) in Hf, Hm.
    assert (max_size_IDs < wrap (n - size (m_FreeIDSlots s))) as Hlt.
    { rewrite Hw; [lia|done|]. change SIZE_MAX with (2 ^ 64 - 1). lia. }
    split; [done|].
    destruct (reserve_total n s) as [Hok|Ht]; [|done].
    apply reserve_Ok in Hok as (_ & Hle & _). lia.
Qed.

Lemma reserve_request_witness :
  reserve 8 acd = Ok tt acd /\
  wrap (0 - size (m_FreeIDSlots acd)) = 18446744073709551615 /\
  reserve 0 acd = Throw length_error acd.
Proof.
  split.
  - apply (proj1 (proj2 (reserve_request acd 8))).
    vm_compute. split_and!; discriminate.
  - destruct (proj1 (proj2 (proj2 (proj2 (reserve_request acd 0)))))
      as (Hw & _).
    + vm_compute. done.
    + vm_compute. discriminate.
    + destruct (proj2 (proj2 (proj2 (proj2 (reserve_request acd 0)))))
        as (_ & Ht).
      * vm_compute. done.
      * vm_compute. discriminate.
      * vm_compute. discriminate.
      * split; [|done]. rewrite Hw. vm_compute. reflexivity.
Defined.

(** * Further properties of the code *)

Section HistoriesMore.
Context {T : Type} `{!limits T}.
Implicit Types (s : Vector T) (h : ID) (v : T) (live : list ID).

(** Along a history the ledger has no duplicates and the removal mode
    stays what it was. *)
Lemma run_ledger ops : forall s live,
  Inv s -> agrees s live -> NoDup live ->
  size (m_IDs s) + Z.of_nat (length ops) <= SIZE_MAX ->
  forall s' live', run ops s live = Done s' live' ->
    Inv s' /\ agrees s' live' /\ NoDup live' /\
    m_KeepOrder s' = m_KeepOrder s.
Proof.
  induction ops as [|o ops IH]; intros s live HI Hag Hnd Hroom s' live'.
  { simpl. intros [= <- <-]. done. }
  rewrite length_cons, Nat2Z.inj_succ in Hroom.
  destruct o as [v|v|h| |n|h]; cbn [run].
  - destruct (push_spec s v HI)
      as (h & s1 & -> & HI1 & Hk & _ & _ & Hnv & Hn & Hv); [lia|].
    intros Hrun. rewrite <- Hk. eapply IH; [done| | |lia|done].
    + intros h'. rewrite Hv, elem_of_cons, (Hag h'). tauto.
    + apply NoDup_cons. split; [|done].
      intros Hin%Hag. congruence.
  - change (emplace v s) with (push v s).
    destruct (push_spec s v HI)
      as (h & s1 & -> & HI1 & Hk & _ & _ & Hnv & Hn & Hv); [lia|].
    intros Hrun. rewrite <- Hk. eapply IH; [done| | |lia|done].
    + intros h'. rewrite Hv, elem_of_cons, (Hag h'). tauto.
    + apply NoDup_cons. split; [|done].
      intros Hin%Hag. congruence.
  - case_bool_decide as Hin; [|done].
    apply Hag in Hin.
    destruct (remove_valid s h HI Hin)
      as (s1 & -> & HI1 & Hk & _ & Hn & Hv & _).
    intros Hrun. rewrite <- Hk. eapply IH; [done| | |lia|done].
    + intros h'. rewrite Hv, list_elem_of_filter, (Hag h'). tauto.
    + by apply NoDup_filter.
  - rewrite clear_run. intros Hrun.
    change (m_KeepOrder s)
      with (m_KeepOrder (@Vector_new T (m_KeepOrder s))).
    eapply IH; [apply Inv_new| | | |done].
    + intros h. rewrite validID_new. split; [done|].
      intros Hh. by apply elem_of_nil in Hh.
    + constructor.
    + simpl. change (size (@nil Z)) with 0. pose proof (size_nonneg (m_IDs s)).
      lia.
  - destruct (reserve_total n s) as [-> | ->]; intros Hrun;
      (eapply IH; [done|done|done|lia|done]).
  - destruct (get_total s h HI) as [[x ->]|[m ->]]; intros Hrun;
      (eapply IH; [done|done|done|lia|done]).
Qed.

Lemma run_new_ledger (ops : list (@op T)) keepOrder s live :
  Z.of_nat (length ops) <= SIZE_MAX ->
  run ops (Vector_new keepOrder) [] = Done s live ->
  Inv s /\ agrees s live /\ NoDup live /\ m_KeepOrder s = keepOrder.
Proof.
  intros Hlen Hrun.
  apply (run_ledger ops (Vector_new keepOrder) []); try done.
  - apply Inv_new.
  - intros h. rewrite validID_new. split; [done|].
    intros Hh. by apply elem_of_nil in Hh.
  - constructor.
Qed.
End HistoriesMore.

(** X7. The removal mode is chosen at construction and no operation
    changes it: after every history the container has the mode it was
    constructed with, and the default constructor keeps the order. *)
Theorem keep_order_fixed {T} `{!limits T} (ops : list (@op T)) keepOrder s live :
  Z.of_nat (length ops) <= SIZE_MAX ->
  (run ops (Vector_new keepOrder) [] = Done s live ->
   m_KeepOrder s = keepOrder) /\
  (run ops Vector_default [] = Done s live -> m_KeepOrder s = true).
Proof.
  intros Hlen. split; intros Hrun;
    by destruct (run_new_ledger _ _ _ _ Hlen Hrun) as (_ & _ & _ & Hk).
Qed.

Lemma keep_order_fixed_witness :
  exists s live,
    run sample_history (Vector_new false) [] = Done s live /\
    m_KeepOrder s = false.
Proof.
  eexists _, _. split; [vm_compute; reflexivity|].
  eapply (proj1 (keep_order_fixed sample_history false _ _ _)).
  vm_compute. reflexivity.
  Unshelve. vm_compute. discriminate.
Defined.

(** X8. [size()] counts the live handles: after every history it is the
    number of handles that were returned by [push] or [emplace] and not
    removed or cleared since, each counted once. *)
Theorem size_counts_live {T} `{!limits T} (ops : list (@op T)) keepOrder s live :
  Z.of_nat (length ops) <= SIZE_MAX ->
  run ops (Vector_new keepOrder) [] = Done s live ->
  NoDup live /\ size_ s = Z.of_nat (length live).
Proof.
  intros Hlen Hrun.
  destruct (run_new_ledger _ _ _ _ Hlen Hrun) as (HI & Hag & Hnd & _).
  split; [done|]. unfold size_. rewrite (inv_len _ HI). unfold size. f_equal.
  apply Permutation_length, NoDup_Permutation; [by apply Inv_rev_NoDup|done|].
  intros h. rewrite <- (Inv_valid_elem_of _ _ HI). apply Hag.
Qed.

Lemma size_counts_live_witness :
  NoDup [MkID 3; MkID 2; MkID 0] /\ size_ acd = 3.
Proof.
  apply (size_counts_live (abcd_history ++ [OpRemove (MkID 1)]) true acd
           [MkID 3; MkID 2; MkID 0]);
    [vm_compute; discriminate|vm_compute; reflexivity].
Defined.

(** X1. The sentinel: [invalidID] (and a default-constructed or
    invalidated [ID]) never passes a validity test.  After every history
    [validID invalidID] is false, [get invalidID] throws "ID out of
    bounds.", and no live handle is the sentinel. *)
Theorem sentinel_never_valid {T} `{!limits T} (ops : list (@op T)) keepOrder s live :
  Z.of_nat (length ops) <= SIZE_MAX ->
  run ops (Vector_new keepOrder) [] = Done s live ->
  validID invalidID s = false /\
  validID ID_default s = false /\
  (forall a, validID (invalidate a) s = false) /\
  get invalidID s =
    Throw (invalid_argument invalidID reason_out_of_bounds) s /\
  (forall h, h ∈ live -> isInvalid h = false).
Proof.
  intros Hlen Hrun.
  destruct (run_new_ledger _ _ _ _ Hlen Hrun) as (HI & Hag & _ & _).
  pose proof (invalidID_not_valid _ HI) as Hs.
  pose proof (inv_bound _ HI) as Hb.
  split_and!; try done.
  - apply get_out_of_bounds. simpl. lia.
  - intros h Hin%Hag. apply validID_spec in Hin as [Hr _].
    unfold isInvalid. apply bool_decide_eq_false_2. lia.
Qed.

Lemma sentinel_never_valid_witness :
  validID invalidID acd = false /\
  validID ID_default acd = false /\
  (forall a, validID (invalidate a) acd = false) /\
  get invalidID acd =
    Throw (invalid_argument invalidID reason_out_of_bounds) acd /\
  (forall h, h ∈ [MkID 3; MkID 2; MkID 0] -> isInvalid h = false).
Proof.
  apply (sentinel_never_valid (abcd_history ++ [OpRemove (MkID 1)]) true acd
           [MkID 3; MkID 2; MkID 0]);
    [vm_compute; discriminate|vm_compute; reflexivity].
Defined.

(** X2. [clear] makes a consistent, empty container out of any container,
    whatever its state: the invariant holds, the size is 0, no handle is
    valid, the removal mode is kept and the next insertion returns
    index 0. *)
Theorem clear_restores {T} (s : Vector T) :
  exists s',
    clear s = Ok tt s' /\ Inv s' /\ size_ s' = 0 /\ entries s' = [] /\
    m_KeepOrder s' = m_KeepOrder s /\
    (forall h, validID h s' = false) /\
    (forall h, get h s' =
               Throw (invalid_argument h reason_out_of_bounds) s') /\
    (forall v, exists s2,
       push v s' = Ok (MkID 0) s2 /\ entries s2 = [(MkID 0, v)]).
Proof.
  exists (Vector_new (m_KeepOrder s)). split_and!; try done.
  - apply Inv_new.
  - intros h. apply validID_new.
  - intros h. apply get_out_of_bounds. simpl. change (size (@nil Z)) with 0.
    lia.
  - intros v. eexists. by rewrite push_fresh.
Qed.

Section Access.
Context {T : Type}.
Implicit Types (s : Vector T) (h a b : ID) (p q : Z) (v x : T).

Lemma subscript_run s h p x :
  at_ (m_IDs s) (value h) = Some p -> at_ (m_Data s) p = Some x ->
  subscript h s = Ok x s.
Proof.
  intros Hp Hx. unfold subscript, bind, this, defined. by rewrite Hp, Hx.
Qed.

Lemma dataAt_run s p x : at_ (m_Data s) p = Some x -> dataAt p s = Ok x s.
Proof. unfold dataAt, bind, this, defined. by intros ->. Qed.

(** The pairs that an iteration visits are the graph of [get]. *)
Lemma elem_of_entries s h v :
  (h, v) ∈ entries s <->
  exists q, at_ (m_RevIDs s) q = Some h /\ at_ (m_Data s) q = Some v.
Proof.
  unfold entries. rewrite elem_of_lookup_zip_with. split.
  - intros (i & h' & v' & [= -> ->] & Hh & Hv). exists (Z.of_nat i).
    by rewrite !at_of_nat.
  - intros (q & Hh & Hv). pose proof (at_Some_range _ _ _ Hh) as Hq.
    unfold at_ in Hh, Hv. rewrite bool_decide_eq_true_2 in Hh, Hv by lia.
    eauto 6.
Qed.

Lemma entries_get s h v :
  Inv s -> (h, v) ∈ entries s <-> get h s = Ok v s.
Proof.
  intros HI. rewrite elem_of_entries. split.
  - intros (q & Hh & Hv). eauto using get_cell.
  - intros Hg. destruct (validID h s) eqn:Hv.
    + destruct (Inv_valid_cell _ _ HI Hv) as (p & x & Hi & Hr & Hx).
      rewrite (get_valid_run _ _ _ _ Hv Hi Hx) in Hg.
      inversion Hg; subst. eauto.
    + unfold get, bind, this, throw in Hg. by rewrite Hv in Hg.
Qed.

Lemma entries_NoDup s : Inv s -> NoDup (entries s).
Proof.
  intros HI. apply (NoDup_fmap_1 fst). unfold entries.
  rewrite fst_zip; [by apply Inv_rev_NoDup|].
  pose proof (inv_len _ HI) as Hlen. unfold size in Hlen. lia.
Qed.
End Access.

(** X3. Unchecked access: on a valid handle [operator[]] returns the
    element that [get] returns and leaves the container as it is; on a
    handle whose index is outside the slot table it reads out of bounds,
    where [get] throws. *)
Theorem subscript_agrees_with_get {T} (s : Vector T) (h : ID) :
  (Inv s -> validID h s = true ->
   exists x, subscript h s = Ok x s /\ get h s = Ok x s) /\
  (~ (0 <= value h < size (m_IDs s)) ->
   subscript h s = Undef /\
   get h s = Throw (invalid_argument h reason_out_of_bounds) s).
Proof.
  split.
  - intros HI Hv. destruct (Inv_valid_cell _ _ HI Hv) as (p & x & Hi & _ & Hx).
    exists x. eauto using subscript_run, get_valid_run.
  - intros Hr. split; [|by apply get_out_of_bounds].
    unfold subscript, bind, this, defined.
    apply at_None in Hr. by rewrite Hr.
Qed.

Lemma subscript_agrees_with_get_witness :
  (exists x, subscript (MkID 3) acd = Ok x acd /\ get (MkID 3) acd = Ok x acd)
  /\ subscript (MkID 4) acd = Undef.
Proof.
  split.
  - apply (proj1 (subscript_agrees_with_get acd (MkID 3)) Inv_acd).
    vm_compute. reflexivity.
  - apply (proj2 (subscript_agrees_with_get acd (MkID 4))).
    vm_compute. intros [_ H]. discriminate H.
Defined.

(** X4. Access by position: for every position below [size()], [idAt]
    returns a valid handle whose [indexOf] is that position and whose
    element, by [get], is what [dataAt] returns there; from [size()] on
    both [idAt] and [dataAt] read out of bounds. *)
Theorem position_access {T} (s : Vector T) (p : Z) :
  Inv s ->
  (0 <= p < size_ s ->
   exists h x,
     idAt p s = Ok h s /\ dataAt p s = Ok x s /\
     validID h s = true /\ indexOf h s = Ok p s /\ get h s = Ok x s) /\
  (size_ s <= p -> idAt p s = Undef /\ dataAt p s = Undef).
Proof.
  intros HI. pose proof (inv_len _ HI) as Hlen. unfold size_. split.
  - intros Hp.
    destruct (at_in_range (m_RevIDs s) p) as [h Hh]; [lia|].
    destruct (at_in_range (m_Data s) p) as [x Hx]; [lia|].
    destruct (inv_rev _ HI _ _ Hh) as [Hi _].
    exists h, x. split_and!.
    + by apply idAt_run.
    + by apply dataAt_run.
    + by eapply Inv_live_valid.
    + by apply indexOf_run.
    + by eapply get_cell.
  - intros Hp. unfold idAt, dataAt, bind, this, defined.
    assert (at_ (m_RevIDs s) p = None) as -> by (apply at_None; lia).
    assert (at_ (m_Data s) p = None) as -> by (apply at_None; lia).
    done.
Qed.

Lemma position_access_witness :
  (exists h x,
     idAt 1 acd = Ok h acd /\ dataAt 1 acd = Ok x acd /\
     validID h acd = true /\ indexOf h acd = Ok 1 acd /\
     get h acd = Ok x acd) /\
  idAt 3 acd = Undef /\ dataAt 3 acd = Undef.
Proof.
  destruct (position_access acd 1 Inv_acd) as [H1 _].
  destruct (position_access acd 3 Inv_acd) as [_ H3].
  split.
  - apply H1. vm_compute. split; [discriminate|reflexivity].
  - apply H3. vm_compute. discriminate.
Defined.

(** X5. Insertion leaves the other elements alone: [push] (and [emplace])
    appends the element and its handle behind the last cell, so that an
    iteration visits the old cells in their order and then the new one;
    the new handle differs from every handle that was valid, and each of
    those keeps its validity, its storage position and its element. *)
Theorem push_frame {T} (s : Vector T) (v : T) :
  Inv s -> size (m_IDs s) < SIZE_MAX ->
  exists h s',
    push v s = Ok h s' /\ emplace v s = Ok h s' /\
    entries s' = entries s ++ [(h, v)] /\
    data s' = data s ++ [v] /\
    size_ s' = size_ s + 1 /\
    indexOf h s' = Ok (size_ s) s' /\
    (forall h', validID h' s = true ->
       h' <> h /\ validID h' s' = true /\
       (forall p, indexOf h' s = Ok p s -> indexOf h' s' = Ok p s') /\
       (forall x, get h' s = Ok x s -> get h' s' = Ok x s')).
Proof.
  intros HI Hroom.
  destruct (push_spec s v HI Hroom)
    as (h & s' & Hp & HI' & _ & Hd & Hr & Hnv & _ & Hval).
  pose proof (inv_len _ HI) as Hlen.
  exists h, s'. split_and!; try done.
  - unfold entries. rewrite Hd, Hr.
    rewrite zip_with_app by (unfold size in Hlen; lia). done.
  - unfold size_. rewrite Hd, size_app. done.
  - assert (at_ (m_RevIDs s') (size_ s) = Some h) as Hh
      by (unfold size_; rewrite Hr, Hlen; apply at_snoc).
    destruct (inv_rev _ HI' _ _ Hh) as [Hi _]. by apply indexOf_run.
  - intros h' Hv'.
    destruct (Inv_valid_cell _ _ HI Hv') as (q & x & Hi & Hq & Hx).
    assert (at_ (m_RevIDs s') q = Some h') as Hq'.
    { rewrite Hr. apply at_snoc_Some. by left. }
    assert (at_ (m_Data s') q = Some x) as Hx'.
    { rewrite Hd. apply at_snoc_Some. by left. }
    destruct (inv_rev _ HI' _ _ Hq') as [Hi' _].
    split_and!.
    + intros ->. congruence.
    + by eapply Inv_live_valid.
    + intros p Hp'. rewrite (indexOf_run _ _ _ Hi) in Hp'.
      inversion Hp'; subst. by apply indexOf_run.
    + intros x' Hg. rewrite (get_valid_run _ _ _ _ Hv' Hi Hx) in Hg.
      inversion Hg; subst. by eapply get_cell.
Qed.

Lemma push_frame_witness :
  exists h s',
    push "E"%string acd = Ok h s' /\ emplace "E"%string acd = Ok h s' /\
    entries s' = entries acd ++ [(h, "E"%string)] /\
    data s' = data acd ++ ["E"%string] /\
    size_ s' = size_ acd + 1 /\
    indexOf h s' = Ok (size_ acd) s' /\
    (forall h', validID h' acd = true ->
       h' <> h /\ validID h' s' = true /\
       (forall p, indexOf h' acd = Ok p acd -> indexOf h' s' = Ok p s') /\
       (forall x, get h' acd = Ok x acd -> get h' s' = Ok x s')).
Proof.
  apply (push_frame acd "E"%string Inv_acd). vm_compute. reflexivity.
Defined.

(** X6. [swapDataLocation] on two valid handles exchanges their storage
    positions and nothing that a handle shows: the invariant is kept, the
    two [indexOf] are exchanged, every handle keeps its validity and its
    element, and an iteration visits the same cells in another order. *)
Theorem swapDataLocation_keeps_values {T} (s : Vector T) (a b : ID) :
  Inv s -> validID a s = true -> validID b s = true ->
  exists pa pb s',
    indexOf a s = Ok pa s /\ indexOf b s = Ok pb s /\
    swapDataLocation a b s = Ok tt s' /\ Inv s' /\
    indexOf a s' = Ok pb s' /\ indexOf b s' = Ok pa s' /\
    (forall h, validID h s' = validID h s) /\
    (forall h x, get h s = Ok x s -> get h s' = Ok x s') /\
    entries s' ≡ₚ entries s.
Proof.
  intros HI Hva Hvb.
  destruct (Inv_valid_cell _ _ HI Hva) as (pa & xa & Hia & Hra & Hxa).
  destruct (Inv_valid_cell _ _ HI Hvb) as (pb & xb & Hib & Hrb & Hxb).
  pose proof (swapDataLocation_run s a b _ _ xa xb a b
                Hia Hib Hxa Hxb Hra Hrb) as Hrun.
  pose proof (Inv_swap s a b _ _ xa xb HI Hra Hrb) as HI'.
  set (s' := MkVector _ _ _ _ _) in Hrun, HI'.
  assert (forall h, validID h s' = validID h s) as Hval.
  { intros h. unfold validID, s'; simpl. by rewrite !size_insert. }
  assert (at_ (m_RevIDs s') pb = Some a) as Ha'.
  { unfold s'; simpl. rewrite (at_swapped _ _ _ _ _ _ Hra Hrb).
    by rewrite decide_True. }
  assert (at_ (m_RevIDs s') pa = Some b) as Hb'.
  { unfold s'; simpl. rewrite (at_swapped _ _ _ _ _ _ Hra Hrb).
    case_decide as E; [|by rewrite decide_True]. subst. congruence. }
  assert (forall h x, get h s = Ok x s -> get h s' = Ok x s') as Hget.
  { intros h x Hg. apply (entries_get _ _ _ HI) in Hg.
    apply elem_of_entries in Hg as (q & Hq & Hqx).
    apply (entries_get _ _ _ HI'), elem_of_entries.
    exists (if decide (q = pa) then pb else if decide (q = pb) then pa else q).
    unfold s'; simpl.
    rewrite (at_swapped _ _ _ _ _ _ Hra Hrb).
    rewrite (at_swapped _ _ _ _ _ _ Hxa Hxb).
    repeat case_decide; simplify_eq; try done; split; congruence. }
  exists pa, pb, s'. split_and!; try done.
  - by apply indexOf_run.
  - by apply indexOf_run.
  - destruct (inv_rev _ HI' _ _ Ha') as [Hi _]. by apply indexOf_run.
  - destruct (inv_rev _ HI' _ _ Hb') as [Hi _]. by apply indexOf_run.
  - apply NoDup_Permutation; try by apply entries_NoDup.
    intros [h x]. rewrite !entries_get by done. split; [|apply Hget].
    intros Hg. destruct (validID h s) eqn:Hv.
    + destruct (get_valid _ _ HI Hv) as (q & x0 & _ & _ & Hg0).
      pose proof (Hget _ _ Hg0) as Hg0'. congruence.
    + rewrite <- Hval in Hv. unfold get, bind, this, throw in Hg.
      by rewrite Hv in Hg.
Qed.

Lemma swapDataLocation_keeps_values_witness :
  exists pa pb s',
    indexOf (MkID 0) acd = Ok pa acd /\ indexOf (MkID 3) acd = Ok pb acd /\
    swapDataLocation (MkID 0) (MkID 3) acd = Ok tt s' /\ Inv s' /\
    indexOf (MkID 0) s' = Ok pb s' /\ indexOf (MkID 3) s' = Ok pa s' /\
    (forall h, validID h s' = validID h acd) /\
    (forall h x, get h acd = Ok x acd -> get h s' = Ok x s') /\
    entries s' ≡ₚ entries acd.
Proof.
  apply (swapDataLocation_keeps_values acd (MkID 0) (MkID 3) Inv_acd);
    vm_compute; reflexivity.
Defined.

Lemma filter_fst_ne_all {T} (h : ID) (l : list (ID * T)) :
  h ∉ l.*1 -> filter (fun e => e.1 <> h) l = l.
Proof.
  induction l as [|e l IH]; [done|].
  rewrite fmap_cons, not_elem_of_cons. intros [Hne Hl].
  rewrite filter_cons_True by (by intros E; apply Hne).
  by rewrite IH.
Qed.

(** What an iteration visits after a removal: the cells it visited
    before without the removed handle's cell; in the order-preserving
    mode in the order they had, in the swap mode in some order. *)
Lemma remove_leaves_entries {T} (s : Vector T) (h : ID) :
  Inv s -> validID h s = true ->
  exists s',
    remove h s = Ok tt s' /\
    entries s' ≡ₚ filter (fun e => e.1 <> h) (entries s) /\
    (m_KeepOrder s = true ->
     entries s' = filter (fun e => e.1 <> h) (entries s) /\
     data s' = (filter (fun e => e.1 <> h) (entries s)).*2).
Proof.
  intros HI Hv.
  destruct (remove_spec _ _ HI Hv)
    as (p & x & s' & Hi & Hr & Hx & Hrm & HI' & _ & Hd & Hr' & _).
  destruct (remove_valid _ _ HI Hv)
    as (s'' & Hrm' & _ & _ & _ & _ & Hval & Hget).
  assert (s'' = s') as -> by congruence.
  exists s'. split; [done|]. split.
  - apply NoDup_Permutation.
    + by apply entries_NoDup.
    + by apply NoDup_filter, entries_NoDup.
    + intros [h' v]. rewrite list_elem_of_filter, !entries_get by done.
      simpl. split.
      * intros Hg. destruct (validID h' s') eqn:Hv'.
        -- apply Hval in Hv' as [Hv' Hne]. split; [done|].
           destruct (get_valid _ _ HI Hv') as (q & x0 & _ & _ & Hg0).
           pose proof (Hget _ _ Hne Hg0). congruence.
        -- unfold get, bind, this, throw in Hg. by rewrite Hv' in Hg.
      * intros [Hne Hg]. by apply Hget.
  - intros Hk. rewrite Hk in Hd, Hr'. simpl in Hd, Hr'.
    pose proof (inv_len _ HI) as Hlen.
    destruct (at_split _ _ _ Hr) as (r_pre & r_suf & Er & Hsr & Err).
    destruct (at_split _ _ _ Hx) as (d_pre & d_suf & Ed & Hsd & Edd).
    assert (length r_pre = length d_pre) as Hpre
      by (unfold size in *; lia).
    pose proof (Inv_rev_NoDup _ HI) as Hnd. rewrite Er in Hnd.
    apply NoDup_app in Hnd as (_ & Hdisj & [Hsuf _]%NoDup_cons).
    assert (entries s' = filter (fun e => e.1 <> h) (entries s)) as He.
    { unfold entries. rewrite Hd, Hr', Err, Edd. rewrite Er, Ed.
      rewrite !zip_with_app by done. simpl.
      rewrite filter_app, filter_cons_False by (simpl; intros E; by apply E).
      rewrite !filter_fst_ne_all; [done| |].
      - rewrite fst_zip; [done|].
        assert (length (m_RevIDs s) = length (m_Data s)) as Hl
          by (unfold size in Hlen; lia).
        rewrite Er, Ed, !length_app in Hl. simpl in Hl. lia.
      - rewrite fst_zip by lia. intros Hin. apply (Hdisj _ Hin).
        apply list_elem_of_here. }
    split; [done|]. rewrite <- He. unfold entries, data.
    rewrite snd_zip; [done|].
    pose proof (inv_len _ HI') as Hlen'. unfold size in Hlen'. lia.
Qed.

(** X10. Handles are recycled: after [remove h] on a container that keeps
    other elements, [h] is not valid; the next [push] returns [h] again,
    and from then on [h] is valid and yields the new element. *)
Theorem recycled_handle_aliases {T} (s : Vector T) (h : ID) (v : T) :
  Inv s -> validID h s = true -> 1 < size_ s ->
  exists s1 s2,
    remove h s = Ok tt s1 /\ validID h s1 = false /\
    push v s1 = Ok h s2 /\ validID h s2 = true /\ get h s2 = Ok v s2.
Proof.
  intros HI Hv Hsz.
  destruct (remove_keeps s h HI Hv Hsz)
    as (s1 & Hrm & HI1 & Hf & Hn & _ & Hval).
  assert (0 <= value h < size (m_IDs s1)) as Hrange.
  { apply validID_spec in Hv as [Hr _]. lia. }
  pose proof (push_recycle s1 v _ _ Hf Hrange) as Hp.
  pose proof (Inv_push_recycle s1 v _ _ HI1 Hf) as HI2.
  rewrite (wrap_data_last _ _ HI1) in Hp.
  set (s2 := MkVector _ _ _ _ _) in Hp, HI2.
  assert (at_ (m_RevIDs s2) (size (m_RevIDs s1)) = Some h) as Hh
    by (unfold s2; simpl; apply at_snoc).
  assert (at_ (m_Data s2) (size (m_RevIDs s1)) = Some v) as Hx
    by (unfold s2; simpl; rewrite <- (inv_len _ HI1); apply at_snoc).
  exists s1, s2. split_and!; try done.
  - destruct (validID h s1) eqn:E; [|done].
    apply Hval in E as [_ E]. done.
  - by eapply Inv_live_valid.
  - by eapply get_cell.
Qed.

Lemma recycled_handle_aliases_witness :
  exists s1 s2,
    remove (MkID 2) abcd = Ok tt s1 /\ validID (MkID 2) s1 = false /\
    push "E"%string s1 = Ok (MkID 2) s2 /\ validID (MkID 2) s2 = true /\
    get (MkID 2) s2 = Ok "E"%string s2.
Proof.
  apply (recycled_handle_aliases abcd (MkID 2) "E"%string Inv_abcd);
    vm_compute; reflexivity.
Defined.

Section Iteration.
Context {T : Type} `{!limits T}.
Implicit Types (s : Vector T) (h : ID) (v : T) (es : list (ID * T)).

Lemma visit_sound ops : forall s es,
  Inv s -> visited s es ->
  size (m_IDs s) + Z.of_nat (length ops) <= SIZE_MAX ->
  forall s' es', visit ops s es = Some (s', es') ->
    Inv s' /\ visited s' es' /\ m_KeepOrder s' = m_KeepOrder s.
Proof.
  induction ops as [|o ops IH]; intros s es HI [Hperm Heq] Hroom s' es'.
  { simpl. intros [= <- <-]. done. }
  rewrite length_cons, Nat2Z.inj_succ in Hroom.
  pose proof (inv_len _ HI) as Hlen.
  destruct o as [v|v|h| |n|h]; cbn [visit].
  - destruct (push_spec s v HI)
      as (h & s1 & -> & HI1 & Hk & Hd & Hr & _ & Hn & _); [lia|].
    assert (entries s1 = entries s ++ [(h, v)]) as He.
    { unfold entries. rewrite Hd, Hr.
      rewrite zip_with_app by (unfold size in Hlen; lia). done. }
    intros Hrun. rewrite <- Hk. eapply IH; [done| |lia|done].
    split; rewrite He; [by rewrite Hperm|].
    rewrite Hk. intros ->%Heq. done.
  - change (emplace v s) with (push v s).
    destruct (push_spec s v HI)
      as (h & s1 & -> & HI1 & Hk & Hd & Hr & _ & Hn & _); [lia|].
    assert (entries s1 = entries s ++ [(h, v)]) as He.
    { unfold entries. rewrite Hd, Hr.
      rewrite zip_with_app by (unfold size in Hlen; lia). done. }
    intros Hrun. rewrite <- Hk. eapply IH; [done| |lia|done].
    split; rewrite He; [by rewrite Hperm|].
    rewrite Hk. intros ->%Heq. done.
  - case_bool_decide as Hin; [|done].
    assert (validID h s = true) as Hv.
    { apply (Inv_valid_elem_of _ _ HI). rewrite <- Hperm in Hin.
      unfold entries in Hin. rewrite fst_zip in Hin; [done|].
      unfold size in Hlen. lia. }
    destruct (remove_leaves_entries s h HI Hv) as (s1 & Hrm & Hp1 & He1).
    destruct (remove_valid s h HI Hv) as (s2 & Hrm' & HI1 & Hk & _ & Hn & _).
    assert (s2 = s1) as -> by congruence.
    rewrite Hrm. intros Hrun. rewrite <- Hk. eapply IH; [done| |lia|done].
    split.
    + rewrite Hp1. by rewrite Hperm.
    + rewrite Hk. intros Hko. destruct (He1 Hko) as [-> _].
      by rewrite (Heq Hko).
  - rewrite clear_run. intros Hrun.
    change (m_KeepOrder s)
      with (m_KeepOrder (@Vector_new T (m_KeepOrder s))).
    eapply IH; [apply Inv_new| | |done].
    + by split.
    + simpl. change (size (@nil Z)) with 0. pose proof (size_nonneg (m_IDs s)).
      lia.
  - destruct (reserve_total n s) as [-> | ->]; intros Hrun;
      (eapply IH; [done|done|lia|done]).
  - destruct (get_total s h HI) as [[x ->]|[m ->]]; intros Hrun;
      (eapply IH; [done|done|lia|done]).
Qed.

(** A history that [run] carries through, [visit] carries through as
    well, to the same container. *)
Lemma visit_total ops : forall s live es,
  Inv s -> agrees s live -> visited s es ->
  size (m_IDs s) + Z.of_nat (length ops) <= SIZE_MAX ->
  forall s' live', run ops s live = Done s' live' ->
    exists es', visit ops s es = Some (s', es').
Proof.
  induction ops as [|o ops IH]; intros s live es HI Hag Hvis Hroom s' live'.
  { simpl. intros [= <- <-]. eauto. }
  rewrite length_cons, Nat2Z.inj_succ in Hroom.
  pose proof (inv_len _ HI) as Hlen.
  pose proof Hvis as [Hperm Heq].
  destruct o as [v|v|h| |n|h]; cbn [run visit].
  - destruct (push_spec s v HI)
      as (h & s1 & -> & HI1 & Hk & Hd & Hr & _ & Hn & Hv); [lia|].
    assert (entries s1 = entries s ++ [(h, v)]) as He.
    { unfold entries. rewrite Hd, Hr.
      rewrite zip_with_app by (unfold size in Hlen; lia). done. }
    apply IH; [done| | |lia].
    + intros h'. rewrite Hv, elem_of_cons, (Hag h'). tauto.
    + split; rewrite He; [by rewrite Hperm|].
      rewrite Hk. intros ->%Heq. done.
  - change (emplace v s) with (push v s).
    destruct (push_spec s v HI)
      as (h & s1 & -> & HI1 & Hk & Hd & Hr & _ & Hn & Hv); [lia|].
    assert (entries s1 = entries s ++ [(h, v)]) as He.
    { unfold entries. rewrite Hd, Hr.
      rewrite zip_with_app by (unfold size in Hlen; lia). done. }
    apply IH; [done| | |lia].
    + intros h'. rewrite Hv, elem_of_cons, (Hag h'). tauto.
    + split; rewrite He; [by rewrite Hperm|].
      rewrite Hk. intros ->%Heq. done.
  - destruct (decide (h ∈ live)) as [Hin|Hin].
    2:{ by rewrite (bool_decide_eq_false_2 (h ∈ live)). }
    rewrite (bool_decide_eq_true_2 (h ∈ live)) by done.
    apply Hag in Hin.
    assert (h ∈ es.*1) as Hes.
    { rewrite <- Hperm. unfold entries.
      rewrite fst_zip by (unfold size in Hlen; lia).
      by apply (Inv_valid_elem_of _ _ HI). }
    rewrite (bool_decide_eq_true_2 (h ∈ es.*1)) by done.
    destruct (remove_leaves_entries s h HI Hin) as (s1 & Hrm & Hp1 & He1).
    destruct (remove_valid s h HI Hin)
      as (s2 & Hrm' & HI1 & Hk & _ & Hn & Hv & _).
    assert (s2 = s1) as -> by congruence.
    rewrite Hrm. apply IH; [done| | |lia].
    + intros h'. rewrite Hv, list_elem_of_filter, (Hag h'). tauto.
    + split.
      * rewrite Hp1. by rewrite Hperm.
      * rewrite Hk. intros Hko. destruct (He1 Hko) as [-> _].
        by rewrite (Heq Hko).
  - rewrite clear_run. apply IH; [apply Inv_new| |by split|].
    + intros h. rewrite validID_new. split; [done|].
      intros Hh. by apply elem_of_nil in Hh.
    + simpl. change (size (@nil Z)) with 0. pose proof (size_nonneg (m_IDs s)).
      lia.
  - destruct (reserve_total n s) as [-> | ->]; apply IH; done || lia.
  - destruct (get_total s h HI) as [[x ->]|[m ->]]; apply IH; done || lia.
Qed.

(** A property of containers that insertions, removals of valid handles
    and [clear] keep holds after every history. *)
Lemma run_keeps (P : Vector T -> Prop) :
  (forall s v h s', Inv s -> P s -> push v s = Ok h s' -> P s') ->
  (forall s h s', Inv s -> P s -> validID h s = true ->
                  remove h s = Ok tt s' -> P s') ->
  (forall k, P (Vector_new k)) ->
  forall ops s live,
    Inv s -> agrees s live -> P s ->
    size (m_IDs s) + Z.of_nat (length ops) <= SIZE_MAX ->
    forall s' live', run ops s live = Done s' live' -> P s'.
Proof.
  intros Hpush Hremove Hnew.
  induction ops as [|o ops IH]; intros s live HI Hag HP Hroom s' live'.
  { simpl. by intros [= <- <-]. }
  rewrite length_cons, Nat2Z.inj_succ in Hroom.
  destruct o as [v|v|h| |n|h]; cbn [run].
  - destruct (push_spec s v HI)
      as (h & s1 & Hp & HI1 & _ & _ & _ & _ & Hn & Hv); [lia|].
    rewrite Hp. apply IH; [done| |exact (Hpush _ _ _ _ HI HP Hp)|lia].
    intros h'. rewrite Hv, elem_of_cons, (Hag h'). tauto.
  - change (emplace v s) with (push v s).
    destruct (push_spec s v HI)
      as (h & s1 & Hp & HI1 & _ & _ & _ & _ & Hn & Hv); [lia|].
    rewrite Hp. apply IH; [done| |exact (Hpush _ _ _ _ HI HP Hp)|lia].
    intros h'. rewrite Hv, elem_of_cons, (Hag h'). tauto.
  - case_bool_decide as Hin; [|done].
    apply Hag in Hin.
    destruct (remove_valid s h HI Hin)
      as (s1 & Hrm & HI1 & _ & _ & Hn & Hv & _).
    rewrite Hrm.
    apply IH; [done| |exact (Hremove _ _ _ HI HP Hin Hrm)|lia].
    intros h'. rewrite Hv, list_elem_of_filter, (Hag h'). tauto.
  - rewrite clear_run. apply IH; [apply Inv_new| |done|].
    + intros h. rewrite validID_new. split; [done|].
      intros Hh. by apply elem_of_nil in Hh.
    + simpl. change (size (@nil Z)) with 0. pose proof (size_nonneg (m_IDs s)).
      lia.
  - destruct (reserve_total n s) as [-> | ->]; apply IH; done || lia.
  - destruct (get_total s h HI) as [[x ->]|[m ->]]; apply IH; done || lia.
Qed.
End Iteration.

(** X9. Iteration order: every history in which [remove] is applied to
    live handles only runs through, and an iteration afterwards visits
    the cells of the insertions whose handle was not removed since the last
    [clear], each once.  In a container that keeps the order they come
    in the order of their insertion, so [data()] holds the surviving
    elements in insertion order; in a swap-remove container in some
    order. *)
Theorem iteration_order {T} `{!limits T} (ops : list (@op T)) keepOrder :
  Z.of_nat (length ops) <= SIZE_MAX ->
  run ops (Vector_new keepOrder) [] <> Misuse ->
  exists s live es,
    run ops (Vector_new keepOrder) [] = Done s live /\
    visit ops (Vector_new keepOrder) [] = Some (s, es) /\
    entries s ≡ₚ es /\
    (keepOrder = true -> entries s = es /\ data s = es.*2).
Proof.
  intros Hlen Hmis.
  assert (visited (@Vector_new T keepOrder) []) as Hvis by by split.
  assert (size (m_IDs (@Vector_new T keepOrder)) + Z.of_nat (length ops)
          <= SIZE_MAX) as Hroom
    by (simpl; change (size (@nil Z)) with 0; lia).
  assert (agrees (@Vector_new T keepOrder) []) as Hag.
  { intros h. rewrite validID_new. split; [done|].
    intros Hh. by apply elem_of_nil in Hh. }
  destruct (run_sound ops _ _ (Inv_new keepOrder) Hag Hroom) as [Hns _].
  destruct (run ops (Vector_new keepOrder) []) as [s live| |] eqn:Hrun;
    [|done|done].
  destruct (visit_total ops _ _ _ (Inv_new keepOrder) Hag Hvis Hroom _ _ Hrun)
    as [es Hes].
  destruct (visit_sound ops _ _ (Inv_new keepOrder) Hvis Hroom _ _ Hes)
    as (HI & [Hperm Heq] & Hk).
  exists s, live, es. split_and!; try done.
  intros ->. simpl in Hk.
  split; [by apply Heq|]. rewrite <- (Heq Hk). unfold entries, data.
  rewrite snd_zip; [done|].
  pose proof (inv_len _ HI) as Hl. unfold size in Hl. lia.
Qed.

Lemma iteration_order_witness :
  exists s live,
    let es := [(MkID 0, "E"); (MkID 1, "F")]%string in
    run sample_history (Vector_new true) [] = Done s live /\
    visit sample_history (Vector_new true) [] = Some (s, es) /\
    entries s ≡ₚ es /\ (true = true -> entries s = es /\ data s = es.*2).
Proof.
  destruct (iteration_order sample_history true)
    as (s & live & es & Hrun & Hvis & Hp & Hk).
  - vm_compute. discriminate.
  - vm_compute. discriminate.
  - vm_compute in Hvis. injection Hvis as <- <-.
    eexists _, live. split_and!; [exact Hrun|vm_compute; reflexivity|done|done].
Defined.

(** Whatever the container, a [push] that returns has appended its
    element to the dense store. *)
Lemma push_data {T} (s : Vector T) v h s' :
  push v s = Ok h s' -> m_Data s' = m_Data s ++ [v].
Proof.
  destruct (m_FreeIDSlots s) as [|h0 fl0] eqn:Hf.
  - rewrite (push_fresh _ _ Hf). by intros [= <- <-].
  - destruct (snoc_nonempty_inv (h0 :: fl0)) as (fl & h1 & Hfl); [done|].
    rewrite Hfl in Hf.
    destruct (decide (0 <= value h1 < size (m_IDs s))) as [Hr|Hr].
    + rewrite (push_recycle _ _ _ _ Hf Hr). by intros [= <- <-].
    + by rewrite (push_recycle_out_of_range _ _ _ _ Hf Hr).
Qed.

(** X11. An empty container has no bookkeeping left: after every history,
    if [size()] is 0 then the slot table, the reverse table and the free
    list are empty, and the next insertion returns index 0. *)
Theorem empty_has_no_bookkeeping {T} `{!limits T} (ops : list (@op T)) keepOrder s live :
  Z.of_nat (length ops) <= SIZE_MAX ->
  run ops (Vector_new keepOrder) [] = Done s live ->
  size_ s = 0 ->
  m_IDs s = [] /\ m_RevIDs s = [] /\ m_FreeIDSlots s = [] /\ live = [] /\
  forall v, exists s', push v s = Ok (MkID 0) s'.
Proof.
  intros Hlen Hrun Hsz.
  assert (m_Data s = []) as Hd.
  { unfold size_ in Hsz. destruct (m_Data s); [done|].
    rewrite size_cons in Hsz. pose proof (size_nonneg l). lia. }
  assert (m_Data s = [] -> s = Vector_new (m_KeepOrder s)) as Hs.
  { apply (run_keeps
             (fun s => m_Data s = [] -> s = Vector_new (m_KeepOrder s)))
      with (ops := ops) (s := Vector_new keepOrder) (live := [])
           (live' := live); try done.
    - intros s0 v h s1 HI0 _ Hp. rewrite (push_data _ _ _ _ Hp).
      intros E. by destruct (m_Data s0).
    - intros s0 h s1 HI0 _ Hv Hrm.
      destruct (remove_spec _ _ HI0 Hv)
        as (p & x & s1' & _ & _ & _ & Hrm' & _ & Hk & _ & _ & Hreset & _).
      assert (s1' = s1) as -> by congruence.
      intros E. rewrite Hk. by apply Hreset.
    - apply Inv_new.
    - intros h. rewrite validID_new. split; [done|].
      intros Hh. by apply elem_of_nil in Hh. }
  specialize (Hs Hd).
  destruct (run_new_ledger _ _ _ _ Hlen Hrun) as (HI & Hag & _ & _).
  split_and!; try (rewrite Hs; done).
  - destruct live as [|h live]; [done|].
    assert (validID h s = true) as Hv by (apply Hag, list_elem_of_here).
    rewrite Hs, validID_new in Hv. done.
  - intros v. rewrite Hs. eexists. rewrite push_fresh by done.
    simpl. reflexivity.
Qed.

Lemma empty_has_no_bookkeeping_witness :
  exists s live,
    run [OpPush "A"; OpPush "B"; OpRemove (MkID 0); OpRemove (MkID 1)]%string
      (Vector_new false) [] = Done s live /\
    m_IDs s = [] /\ m_RevIDs s = [] /\ m_FreeIDSlots s = [] /\ live = [] /\
    forall v, exists s', push v s = Ok (MkID 0) s'.
Proof.
  eexists _, _. split; [vm_compute; reflexivity|].
  eapply (empty_has_no_bookkeeping
            [OpPush "A"; OpPush "B"; OpRemove (MkID 0);
             OpRemove (MkID 1)]%string
            false);
    [vm_compute; discriminate|vm_compute; reflexivity|vm_compute; reflexivity].
Defined.

(** X12. Comparing handles: the handles that own two storage positions
    compare equal with [==] exactly when the positions are the same, and
    [!=] gives the opposite answer; no handle that owns a position
    compares equal to the sentinel. *)
Theorem handles_compare_by_position {T} (s : Vector T) (p q : Z) (a b : ID) :
  Inv s -> idAt p s = Ok a s -> idAt q s = Ok b s ->
  (ID_eqb a b = true <-> p = q) /\
  (ID_neqb a b = true <-> p <> q) /\
  ID_eqb a invalidID = false /\ ID_neqb a invalidID = true.
Proof.
  intros HI Ha Hb.
  assert (at_ (m_RevIDs s) p = Some a) as Hpa.
  { unfold idAt, bind, this, defined in Ha.
    destruct (at_ (m_RevIDs s) p); by inversion Ha. }
  assert (at_ (m_RevIDs s) q = Some b) as Hqb.
  { unfold idAt, bind, this, defined in Hb.
    destruct (at_ (m_RevIDs s) q); by inversion Hb. }
  assert (ID_eqb a b = true <-> p = q) as Heq.
  { rewrite ID_eqb_eq. split.
    - intros ->. by eapply Inv_rev_inj.
    - intros ->. congruence. }
  assert (ID_eqb a invalidID = false) as Hs.
  { destruct (ID_eqb a invalidID) eqn:E; [|done].
    apply ID_eqb_eq in E. subst a.
    pose proof (Inv_live_valid _ _ _ HI Hpa) as Hv.
    by rewrite (invalidID_not_valid _ HI) in Hv. }
  split_and!; try done.
  - unfold ID_neqb. fold (ID_eqb a b). rewrite negb_true_iff.
    rewrite <- Heq. by destruct (ID_eqb a b).
  - unfold ID_neqb. fold (ID_eqb a invalidID). by rewrite Hs.
Qed.

Lemma handles_compare_by_position_witness :
  (ID_eqb (MkID 2) (MkID 3) = true <-> 1 = 2) /\
  (ID_neqb (MkID 2) (MkID 3) = true <-> 1 <> 2) /\
  ID_eqb (MkID 2) invalidID = false /\ ID_neqb (MkID 2) invalidID = true.
Proof.
  apply (handles_compare_by_position acd 1 2 (MkID 2) (MkID 3) Inv_acd);
    vm_compute; reflexivity.
Defined.

(** * Removal without a valid handle *)

Section Stale.
Context {T : Type} `{!limits T}.
Implicit Types (s : Vector T) (h a b : ID).












End Stale.



